(** * mcspeedrun: the session control loop, the log parser and the proxy

    A shallow embedding of the session source (the [Session] type,
    [NewSession], [Loop], [Proxy]) and of [game.go] (the [Game] type and
    its methods, [HandleLog]) together with the properties of the state
    machine they implement.

    Conventions of the embedding:
    - Go's [int] is a 64-bit two's complement integer, carried as a [Z]
      with the wrap-around of [+=] written out ([int_wrap]).
    - Go strings are byte strings ([string] of [ascii]).
    - [map[int]*Game] is a [gmap Z Game]; the [*Game] pointers stored in
      it are created once by [NewGame] and never replaced, so a pointer is
      identified with the key under which the map holds the object, and
      [Session.Active] is an [option Z] ([None] is [nil]).
    - Calls to the outside world (the Docker client, the log, the proxy
      channel, the state file) are collected in a list of [Effect]s; what
      the outside world answers is an input of the step that asks. *)

From Stdlib Require Import ZArith Lia Ascii String.
From stdpp Require Import base gmap list strings pretty sorting.

Local Open Scope Z_scope.

(** ** Go primitives *)

Definition int_min : Z := - 2 ^ 63.
Definition int_max : Z := 2 ^ 63 - 1.

(** Result of an [int] operation whose mathematical value is [z]. *)
Definition int_wrap (z : Z) : Z := (z + 2 ^ 63) mod 2 ^ 64 - 2 ^ 63.

(** The byte ["\n"] and the byte of a double quote. *)
Definition nl : string := String "010"%char EmptyString.
Definition dq : string := String "034"%char EmptyString.

(** [strings.Contains]. *)
Fixpoint Contains (s substr : string) : bool :=
  String.prefix substr s ||
  match s with
  | EmptyString => false
  | String _ s' => Contains s' substr
  end.

(** [%d] of [fmt.Sprintf]. *)
Definition itoa (z : Z) : string := pretty z.

(** A call [log.Printf(format, args...)] is recorded with its arguments;
    an [error] argument is opaque. *)
Inductive Value :=
| VString (s : string)
| VInt (z : Z)
| VError.

(** ** The fragment of regular expressions [logExpression] is written in *)

Inductive regex :=
| BeginText                       (* ^ *)
| EndText                         (* $ *)
| Lit (c : ascii)                 (* one literal byte *)
| Plus (cls : ascii → bool)       (* [class]+, greedy *)
| Cat (r1 r2 : regex)
| Group (r : regex).              (* ( ... ), not nested *)

Definition ascii_in (lo hi : nat) (c : ascii) : bool :=
  (lo <=? nat_of_ascii c)%nat && (nat_of_ascii c <=? hi)%nat.

(** [\d], [\w] and [\s] of Go's [regexp] (RE2 syntax, ASCII only). *)
Definition class_d (c : ascii) : bool := ascii_in 48 57 c.
Definition class_w (c : ascii) : bool :=
  ascii_in 48 57 c || ascii_in 65 90 c || ascii_in 97 122 c || Ascii.eqb c "_".
Definition class_s (c : ascii) : bool :=
  Ascii.eqb c "009" || Ascii.eqb c "010" || Ascii.eqb c "012" ||
  Ascii.eqb c "013" || Ascii.eqb c " ".
(** [.] without the [s] flag: any byte but a newline. *)
Definition class_dot (c : ascii) : bool := negb (Ascii.eqb c "010").

(** Greedy continuation of a [Plus]: take as many bytes of the class as
    the rest of the expression allows, longest first. *)
Fixpoint plus_more {R} (cls : ascii → bool) (s : string)
    (k : string → option R) : option R :=
  match s with
  | String c s' =>
      if cls c then
        match plus_more cls s' k with
        | Some r => Some r
        | None => k s
        end
      else k s
  | EmptyString => k s
  end.

(** Backtracking matcher in continuation-passing style. [start] tells
    whether [s] is the whole text (nothing consumed or skipped yet);
    [caps] are the groups closed so far, last first. *)
Fixpoint rmatch (r : regex) (start : bool) (s : string) (caps : list string)
    (k : bool → string → list string → option (list string))
    : option (list string) :=
  match r with
  | BeginText => if start then k start s caps else None
  | EndText => match s with EmptyString => k start s caps | _ => None end
  | Lit c =>
      match s with
      | String c' s' => if Ascii.eqb c c' then k false s' caps else None
      | EmptyString => None
      end
  | Plus cls =>
      match s with
      | String c s' =>
          if cls c then plus_more cls s' (λ rest, k false rest caps) else None
      | EmptyString => None
      end
  | Cat r1 r2 =>
      rmatch r1 start s caps (λ st s1 caps1, rmatch r2 st s1 caps1 k)
  | Group r1 =>
      rmatch r1 start s caps (λ st s1 caps1,
        k st s1
          (substring 0 (String.length s - String.length s1) s :: caps1))
  end.

(** The match anchored at the head of [s]: the whole match followed by
    the groups. *)
Definition match_here (r : regex) (start : bool) (s : string)
    : option (list string) :=
  rmatch r start s []
    (λ _ rest caps,
       Some (substring 0 (String.length s - String.length rest) s :: rev caps)).

(** Leftmost match, as [FindStringSubmatch] searches it. *)
Fixpoint find_from (r : regex) (start : bool) (s : string)
    : option (list string) :=
  match match_here r start s with
  | Some m => Some m
  | None =>
      match s with
      | String _ s' => find_from r false s'
      | EmptyString => None
      end
  end.

(** [re.FindAllStringSubmatch(s, 1)]: at most one match. *)
Definition FindAllStringSubmatch1 (r : regex) (s : string)
    : list (list string) :=
  match find_from r true s with
  | Some m => [m]
  | None => []
  end.

(** A literal string followed by [r]. *)
Fixpoint Lits (s : string) (r : regex) : regex :=
  match s with
  | EmptyString => r
  | String c s' => Cat (Lit c) (Lits s' r)
  end.

(** [^\[(\d+:\d+:\d+)\] \[([\s\w/-]+)\]: (.+)$] *)
Definition logExpression : regex :=
  Cat BeginText
  (Lits "["
  (Cat (Group (Cat (Plus class_d) (Lits ":"
               (Cat (Plus class_d) (Lits ":" (Plus class_d))))))
  (Lits "] ["
  (Cat (Group (Plus (λ c, class_s c || class_w c ||
                          Ascii.eqb c "/" || Ascii.eqb c "-")))
  (Lits "]: "
  (Cat (Group (Plus class_dot))
  EndText)))))).

(** ** Time *)

(** A [time.Time] in UTC, held as the arguments [time.Date] builds it
    from (each within its calendar range). *)
Record Time := Date {
  Year : Z; Month : Z; Day : Z;
  Hour : Z; Minute : Z; Second : Z; Nanosecond : Z
}.

(** The zero value [time.Time{}]: January 1, year 1, 00:00:00 UTC. *)
Definition Time_zero : Time := Date 1 1 1 0 0 0 0.

Definition digit_val (c : ascii) : Z := Z.of_nat (nat_of_ascii c) - 48.

(** [getnum] of package [time]: one or two leading digits; with [fixed]
    exactly two. *)
Definition getnum (s : string) (fixed : bool) : option (Z * string) :=
  match s with
  | String c0 rest0 =>
      if class_d c0 then
        match rest0 with
        | String c1 rest1 =>
            if class_d c1 then Some (digit_val c0 * 10 + digit_val c1, rest1)
            else if fixed then None else Some (digit_val c0, rest0)
        | EmptyString => if fixed then None else Some (digit_val c0, rest0)
        end
      else None
  | EmptyString => None
  end.

Definition skip_colon (s : string) : option string :=
  match s with
  | String c rest => if Ascii.eqb c ":" then Some rest else None
  | EmptyString => None
  end.

(** [time.Parse("15:04:05", value)] on a [value] made of digits and
    colons (what the first group of [logExpression] captures): the hour,
    minute and second, or [None] for an error. *)
Definition Parse_clock (value : string) : option (Z * Z * Z) :=
  '(h, v1) ← getnum value false;
  v2 ← skip_colon v1;
  '(m, v3) ← getnum v2 true;
  v4 ← skip_colon v3;
  '(sec, v5) ← getnum v4 true;
  if (h <? 24) && (m <? 60) && (sec <? 60) && bool_decide (v5 = EmptyString)
  then Some (h, m, sec) else None.

(** ** Data *)

Record Message := { Text : string; Color : string }.

Record Event := {
  GameID : Z;
  Timestamp : Time;
  Typ : string;          (* the field [Type] *)
  Payload : string
}.

Record SessionData := { Attempt : Z }.

(** The fields of [Game] that hold data; [Events] and [Client] are the
    shared event channel and the Docker client. *)
Record Game := {
  ID : Z;
  Name : string;
  Image : string;
  Addr : string;
  Ready : bool
}.

(** The fields of [Session] that hold data; [Events], [Client] and
    [ProxyAddr] are channels and the Docker client. *)
Record Session := {
  Data : SessionData;
  Replicas : gmap Z Game;
  SImage : string;       (* the field [Image] *)
  Active : option Z;
  State : string;
  TimeStart : Time
}.

(** What the program asks of the outside world. *)
Inductive Effect :=
| LogPrintf (format : string) (args : list Value)
| ProxyAddrSend (addr : string)               (* s.ProxyAddr <- addr *)
| ContainerAttach (name input : string)       (* attach and write to stdin *)
| ContainerKill (name signal : string)
| ContainerInspect (name : string)
| ThrowerInput (name payload : string)
| StateFileWrite (data : SessionData).

(** A computation that may end in a run-time panic. *)
Inductive result (A : Type) :=
| Ok (a : A)
| Panic.
Arguments Ok {A} a.
Arguments Panic {A}.

(** ** Game: the log parser *)

(** The phrase [For help, type "help"], quotes included. *)
Definition help_phrase : string := "For help, type " +:+ dq +:+ "help" +:+ dq.

(** The [switch] of [HandleLog] over the message: the event type, [""]
    when no case applies. *)
Definition classify (text : string) : string :=
  if Contains text "> rr" then "cmd.reset"
  else if Contains text ": Set the time to 0]" then "cmd.retime"
  else if Contains text help_phrase then "generated"
  else if Contains text "joined the game" then "login"
  else if Contains text "[We Need to Go Deeper]" then "nether"
  else if Contains text "[The End?]" then "end"
  else if Contains text "[Credits!]" then "credits"
  else "".

(** [Game.HandleLog]; [now] is what [time.Now()] returns. The event
    sent on [g.Events], if any, is returned. *)
Definition HandleLog (g : Game) (now : Time) (line : string)
    : list Effect * option Event :=
  let log1 := LogPrintf "[%s] %s" [VString (Name g); VString line] in
  match FindAllStringSubmatch1 logExpression line with
  | [[_; ts; _; text]] =>
      match Parse_clock ts with
      | None =>
          ([log1;
            LogPrintf "[%s] error parsing time: %s" [VString (Name g); VError]],
           None)
      | Some (h, m, sec) =>
          let t := Date (Year now) (Month now) (Day now) h m sec
                        (Nanosecond now) in
          let typ := classify text in
          if bool_decide (typ ≠ "") then
            ([log1],
             Some {| Timestamp := t; GameID := ID g; Typ := typ;
                     Payload := text |})
          else ([log1], None)
      end
  | _ => ([log1], None)
  end.

(** First match in an ordered table of (phrase, event type): the type
    of the first rule whose phrase the message contains. *)
Definition first_match (rules : list (string * string)) (text : string)
    : option string :=
  snd <$> List.find (λ r, Contains text r.1) rules.

(** The cases of the [switch] in [HandleLog], in their order, as such a
    table. *)
Definition rule_table : list (string * string) :=
  [("> rr", "cmd.reset");
   (": Set the time to 0]", "cmd.retime");
   (help_phrase, "generated");
   ("joined the game", "login");
   ("[We Need to Go Deeper]", "nether");
   ("[The End?]", "end");
   ("[Credits!]", "credits")].

(** The table in the words of the specification: reset command phrase,
    generation-complete phrase, player-joined phrase, nether-entry
    phrase, end-entry phrase, credits phrase. *)
Definition spec_rule_table : list (string * string) :=
  [("> rr", "cmd.reset");
   (help_phrase, "generated");
   ("joined the game", "login");
   ("[We Need to Go Deeper]", "nether");
   ("[The End?]", "end");
   ("[Credits!]", "credits")].

(** ** Proxy

    The outer [for] of [Proxy] opens a listener and starts a goroutine
    that waits on [s.ProxyAddr], assigns [proxyAddr] and closes the
    listener; the inner [for] accepts connections until [Accept] fails.
    [proxyAddr] is thus a variable the accept loop shares with that
    goroutine and with the goroutines it starts itself: what a read of
    it yields is an input of the step that reads. *)

Record Conn := { conn_id : nat; RemoteAddr : string }.

Inductive Endpoint :=
| Client (c : Conn)        (* the accepted connection [c] *)
| Backend (c : Conn).      (* the connection [proxy] dialled for [c] *)

Inductive ProxyEffect :=
| ProxyLog (format : string) (args : list Value)
| ConnClose (e : Endpoint)
| NetDial (c : Conn) (address : string)
| IoCopy (dst src : Endpoint).

(** What happens to the goroutine started for a connection: the value of
    [proxyAddr] it dials, whether [net.Dial] succeeds, and whether one of
    the two copies has returned. *)
Record Relay := { target : string; dial_ok : bool; copy_returned : bool }.

(** The goroutine [go func(c net.Conn) { ... }(conn)]. *)
Definition relay_conn (c : Conn) (r : Relay) : list ProxyEffect :=
  NetDial c (target r +:+ ":25565") ::
  if dial_ok r then
    [IoCopy (Backend c) (Client c); IoCopy (Client c) (Backend c)] ++
    (if copy_returned r then [ConnClose (Client c); ConnClose (Backend c)]
     else [])
  else
    [ProxyLog "[proxy] error connecting to proxy: %s" [VError];
     ConnClose (Client c)].

(** The body of the accept loop for a connection [l.Accept] returned,
    with [proxyAddr] as the test reads it. *)
Definition serve_conn (proxyAddr : string) (c : Conn) (r : Relay)
    : list ProxyEffect :=
  if String.eqb proxyAddr "" then [ConnClose (Client c)]
  else
    ProxyLog "%s -> %s" [VString (RemoteAddr c); VString proxyAddr] ::
    relay_conn c r.

Inductive Accept :=
| AcceptError
| AcceptConn (proxyAddr : string) (c : Conn) (r : Relay).

(** The inner [for] of [Proxy] on one listener: it ends with the first
    error of [Accept]. *)
Fixpoint accept_loop (accepts : list Accept) : list ProxyEffect :=
  match accepts with
  | [] => []
  | AcceptError :: _ =>
      [ProxyLog "[proxy] error accepting connection: %s" [VError]]
  | AcceptConn proxyAddr c r :: rest =>
      serve_conn proxyAddr c r ++ accept_loop rest
  end.

(** An effect that moves bytes of connection [c], or opens the way. *)
Definition relays (c : Conn) (e : ProxyEffect) : Prop :=
  match e with
  | NetDial c' _ => c' = c
  | IoCopy dst src =>
      dst = Client c ∨ dst = Backend c ∨ src = Client c ∨ src = Backend c
  | _ => False
  end.

(** ** The Go standard library, as the examples below run it

    The session logic is stated over any renderer of a duration and any
    JSON encoder ([Section SessionLoop]); these two definitions are the
    ones the concrete runs use. *)

Definition is_leap (y : Z) : bool :=
  (y mod 4 =? 0) && (negb (y mod 100 =? 0) || (y mod 400 =? 0)).

Definition days_before_month (m : Z) : Z :=
  nth (Z.to_nat (m - 1)) [0; 31; 59; 90; 120; 151; 181; 212; 243; 273; 304; 334] 0.

(** Seconds from January 1 of year 1, 00:00:00 UTC. *)
Definition Time_sec (t : Time) : Z :=
  let y := Year t - 1 in
  let days := 365 * y + y / 4 - y / 100 + y / 400
              + days_before_month (Month t)
              + (if is_leap (Year t) && (3 <=? Month t) then 1 else 0)
              + (Day t - 1) in
  days * 86400 + Hour t * 3600 + Minute t * 60 + Second t.

(** [t.Sub(u)]: the difference in nanoseconds, saturated to the range of
    a [time.Duration]. *)
Definition Sub (t u : Time) : Z :=
  let d := (Time_sec t - Time_sec u) * 1000000000
           + (Nanosecond t - Nanosecond u) in
  if d <? int_min then int_min else if int_max <? d then int_max else d.

(** [fmtFrac]: the low [prec] digits of [v] without trailing zeros,
    behind a point, and what is left of [v]. *)
Fixpoint fmtFrac (prec : nat) (v : Z) (print : bool) (acc : string)
    : string * Z :=
  match prec with
  | O => (if print then "." +:+ acc else acc, v)
  | S p =>
      let digit := v mod 10 in
      let print' := print || negb (digit =? 0) in
      fmtFrac p (v / 10) print' (if print' then itoa digit +:+ acc else acc)
  end.

(** [time.Duration.String]. *)
Definition Duration_String (d : Z) : string :=
  let u := Z.abs d in
  let sign := if d <? 0 then "-" else "" in
  if u =? 0 then "0s"
  else if u <? 1000000000 then
    let '(prec, unit) :=
      if u <? 1000 then (0%nat, "ns")
      else if u <? 1000000
        then (3%nat, String "194" (String "181" "s"))   (* micro sign, UTF-8 *)
        else (6%nat, "ms") in
    let '(frac, whole) := fmtFrac prec u false "" in
    sign +:+ itoa whole +:+ frac +:+ unit
  else
    let '(frac, secs) := fmtFrac 9 u false "" in
    let mins := secs / 60 in
    let hours := mins / 60 in
    sign +:+
    (if 0 <? hours then itoa hours +:+ "h" else "") +:+
    (if 0 <? mins then itoa (mins mod 60) +:+ "m" else "") +:+
    itoa (secs mod 60) +:+ frac +:+ "s".

Definition go_Sub_String (t u : Time) : string := Duration_String (Sub t u).

Definition hex_digit (n : Z) : string :=
  String (nth (Z.to_nat n) (list_ascii_of_string "0123456789abcdef") "0"%char) "".

(** How [encoding/json] writes a byte below [utf8.RuneSelf] of a string
    (HTML-safe mode, Go 1.15 as in [go.mod]). *)
Definition json_byte (c : ascii) : string :=
  let n := Z.of_nat (nat_of_ascii c) in
  if Ascii.eqb c "034" then String "\" dq
  else if Ascii.eqb c "\" then "\\"
  else if Ascii.eqb c "010" then "\n"
  else if Ascii.eqb c "013" then "\r"
  else if Ascii.eqb c "009" then "\t"
  else if (n <? 32) || Ascii.eqb c "<" || Ascii.eqb c ">" || Ascii.eqb c "&"
    then "\u00" +:+ hex_digit (n / 16) +:+ hex_digit (n mod 16)
  else String c "".

Definition byte_val (c : ascii) : Z := Z.of_nat (nat_of_ascii c).

Definition RuneError : Z := 65533.

(** The table [first] of [unicode/utf8] for a leading byte of 0x80 or
    more: the length of the sequence it starts and the range its second
    byte must lie in; [None] for a byte that starts no sequence. *)
Definition utf8_first (p0 : Z) : option (nat * Z * Z) :=
  if (0xC2 <=? p0) && (p0 <=? 0xDF) then Some (2%nat, 0x80, 0xBF)
  else if p0 =? 0xE0 then Some (3%nat, 0xA0, 0xBF)
  else if (0xE1 <=? p0) && (p0 <=? 0xEC) then Some (3%nat, 0x80, 0xBF)
  else if p0 =? 0xED then Some (3%nat, 0x80, 0x9F)
  else if (0xEE <=? p0) && (p0 <=? 0xEF) then Some (3%nat, 0x80, 0xBF)
  else if p0 =? 0xF0 then Some (4%nat, 0x90, 0xBF)
  else if (0xF1 <=? p0) && (p0 <=? 0xF3) then Some (4%nat, 0x80, 0xBF)
  else if p0 =? 0xF4 then Some (4%nat, 0x80, 0x8F)
  else None.

(** [utf8.DecodeRuneInString]: the first rune of [s] and the number of
    bytes it takes; an encoding that is invalid or cut short gives
    [(RuneError, 1)], the empty string [(RuneError, 0)]. *)
Definition DecodeRuneInString (s : string) : Z * nat :=
  match s with
  | "" => (RuneError, 0%nat)
  | String c0 r =>
      let p0 := byte_val c0 in
      if p0 <? 0x80 then (p0, 1%nat)
      else
        match utf8_first p0 with
        | None => (RuneError, 1%nat)
        | Some (sz, lo, hi) =>
            if (String.length s <? sz)%nat then (RuneError, 1%nat)
            else
              match r with
              | "" => (RuneError, 1%nat)
              | String c1 r1 =>
                  let b1 := byte_val c1 in
                  if (b1 <? lo) || (hi <? b1) then (RuneError, 1%nat)
                  else if (sz <=? 2)%nat then
                    (Z.lor (Z.shiftl (Z.land p0 0x1F) 6) (Z.land b1 0x3F),
                     2%nat)
                  else
                    match r1 with
                    | "" => (RuneError, 1%nat)
                    | String c2 r2 =>
                        let b2 := byte_val c2 in
                        if (b2 <? 0x80) || (0xBF <? b2) then (RuneError, 1%nat)
                        else if (sz <=? 3)%nat then
                          (Z.lor (Z.lor (Z.shiftl (Z.land p0 0x0F) 12)
                                        (Z.shiftl (Z.land b1 0x3F) 6))
                                 (Z.land b2 0x3F),
                           3%nat)
                        else
                          match r2 with
                          | "" => (RuneError, 1%nat)
                          | String c3 _ =>
                              let b3 := byte_val c3 in
                              if (b3 <? 0x80) || (0xBF <? b3)
                              then (RuneError, 1%nat)
                              else
                                (Z.lor (Z.lor (Z.lor
                                   (Z.shiftl (Z.land p0 0x07) 18)
                                   (Z.shiftl (Z.land b1 0x3F) 12))
                                   (Z.shiftl (Z.land b2 0x3F) 6))
                                   (Z.land b3 0x3F),
                                 4%nat)
                          end
                    end
              end
        end
  end.

(** [s[:n]] and [s[n:]]. *)
Fixpoint string_take (n : nat) (s : string) : string :=
  match n, s with
  | S n', String c r => String c (string_take n' r)
  | _, _ => ""
  end.

Fixpoint string_drop (n : nat) (s : string) : string :=
  match n, s with
  | S n', String _ r => string_drop n' r
  | _, _ => s
  end.

(** The loop of [encodeState.string] on what is left of the string: a
    byte below [utf8.RuneSelf] is copied or escaped, an invalid encoding
    is replaced by [\ufffd], U+2028 and U+2029 are escaped, and any other
    rune is copied. Every turn consumes at least one byte, so [fuel] need
    not exceed the length of the string. *)
Fixpoint json_escape (fuel : nat) (s : string) : string :=
  match fuel, s with
  | S fuel', String b r =>
      if byte_val b <? 0x80 then json_byte b +:+ json_escape fuel' r
      else
        let '(c, size) := DecodeRuneInString s in
        if (c =? RuneError) && (size =? 1)%nat then
          "\ufffd" +:+ json_escape fuel' (string_drop size s)
        else if (c =? 0x2028) || (c =? 0x2029) then
          "\u202" +:+ hex_digit (Z.land c 0xF) +:+
          json_escape fuel' (string_drop size s)
        else string_take size s +:+ json_escape fuel' (string_drop size s)
  | _, _ => ""
  end.

Definition json_string (s : string) : string :=
  dq +:+ json_escape (String.length s) s +:+ dq.

Definition json_Message (m : Message) : string :=
  "{" +:+ dq +:+ "text" +:+ dq +:+ ":" +:+ json_string (Text m) +:+ ","
      +:+ dq +:+ "color" +:+ dq +:+ ":" +:+ json_string (Color m) +:+ "}".

(** [json.Marshal] of a [[]Message]. *)
Definition go_json_Marshal (ms : list Message) : string :=
  "[" +:+ String.concat "," (map json_Message ms) +:+ "]".

(** ** Session *)

Definition with_Replicas (m : gmap Z Game) (s : Session) : Session :=
  {| Data := Data s; Replicas := m; SImage := SImage s; Active := Active s;
     State := State s; TimeStart := TimeStart s |}.

Definition with_Active (a : option Z) (s : Session) : Session :=
  {| Data := Data s; Replicas := Replicas s; SImage := SImage s; Active := a;
     State := State s; TimeStart := TimeStart s |}.

Definition with_State (st : string) (s : Session) : Session :=
  {| Data := Data s; Replicas := Replicas s; SImage := SImage s;
     Active := Active s; State := st; TimeStart := TimeStart s |}.

Definition with_Ready (b : bool) (g : Game) : Game :=
  {| ID := ID g; Name := Name g; Image := Image g; Addr := Addr g; Ready := b |}.

Definition with_Addr (a : string) (g : Game) : Game :=
  {| ID := ID g; Name := Name g; Image := Image g; Addr := a; Ready := Ready g |}.

(** What [Session.Load] finds in [state.json]. *)
Inductive LoadResult :=
| NotExist
| Loaded (d : SessionData)
| LoadError.

(** [Session.NewGame]. *)
Definition NewGame (s : Session) (id : Z) : Session :=
  with_Replicas
    (<[id := {| ID := id; Image := SImage s;
                Name := "mcspeedrun_" +:+ itoa id;
                Addr := ""; Ready := false |}]> (Replicas s)) s.

(** [NewSession]; [None] is the error return. *)
Definition NewSession (load : LoadResult) (image : string) (replicas : Z)
    : option Session :=
  let s := λ d, {| Data := d; Replicas := ∅; SImage := image; Active := None;
                   State := ""; TimeStart := Time_zero |} in
  match load with
  | LoadError => None
  | NotExist => Some (foldl NewGame (s {| Attempt := 0 |}) (seqZ 0 replicas))
  | Loaded d => Some (foldl NewGame (s d) (seqZ 0 replicas))
  end.

(** The object [s.Active] points to. [Active] only ever holds a key of
    [Replicas] ([Session_wf]), so the lookup fails for [nil] alone. *)
Definition active_game (s : Session) : option Game :=
  a ← Active s; Replicas s !! a.

(** The [for _, replica := range s.Replicas] of the selection: [order]
    is the order in which this [range] visits the keys. *)
Fixpoint first_ready (order : list Z) (m : gmap Z Game) : option (Z * Game) :=
  match order with
  | [] => None
  | k :: rest =>
      match m !! k with
      | Some g => if Ready g then Some (k, g) else first_ready rest m
      | None => first_ready rest m
      end
  end.

(** An order a [range] over [m] can take: every key once. *)
Definition range_order (m : gmap Z Game) (order : list Z) : Prop :=
  NoDup order ∧ ∀ k, k ∈ order ↔ is_Some (m !! k).

(** The head of the loop body: [if s.Active == nil { ... }]. *)
Definition select_active (order : list Z) (s : Session)
    : Session * list Effect :=
  match Active s with
  | Some _ => (s, [])
  | None =>
      match first_ready order (Replicas s) with
      | Some (k, g) =>
          (with_Active (Some k) s,
           [ProxyAddrSend "";
            LogPrintf "[core] switching to %s" [VString (Name g)];
            ProxyAddrSend (Addr g)])
      | None => (s, [ProxyAddrSend ""])
      end
  end.

(** The two guards in front of the [switch]. *)
Definition unknown_game (s : Session) (evt : Event) : bool :=
  Z.of_nat (size (Replicas s)) <=? GameID evt.

Definition non_active (s : Session) (evt : Event) : bool :=
  match active_game s with
  | None => true
  | Some g => negb (GameID evt =? ID g)
  end && negb (String.eqb (Typ evt) "generated").

(** A method call or field access through [s.Active]. *)
Definition deref_Active {A} (s : Session) (k : Z → Game → result A)
    : result A :=
  match Active s with
  | Some a =>
      match Replicas s !! a with
      | Some g => k a g
      | None => Panic
      end
  | None => Panic
  end.

(** What one turn of the loop wakes up on: cancellation, with the
    outcome of [Save], or an event, with what [ContainerInspect] answers
    should the handler ask. *)
Inductive Wake :=
| CtxDone (saved : bool)
| Recv (evt : Event) (inspect : option string).

Record Iteration := { order : list Z; wake : Wake }.

Inductive Next :=
| Continue (s : Session)
| Return (s : Session)
| Crash.

Section SessionLoop.

(** [json.Marshal] of a [[]Message] and [%s] of [t.Sub(u)]. *)
Variable json_Marshal : list Message → string.
Variable Sub_String : Time → Time → string.

(** [Game.Command]. *)
Definition Command (g : Game) (command : string) : list Effect :=
  [ContainerAttach (Name g) (command +:+ nl)].

(** [Game.Say]. *)
Definition Say (g : Game) (text color : string) : list Effect :=
  Command g ("/tellraw @a " +:+
             json_Marshal [{| Text := text; Color := color |}]).

(** [Game.Refresh]; [inspect] is the address [ContainerInspect] reports,
    [None] when it fails. *)
Definition Refresh (g : Game) (inspect : option string) : Game * list Effect :=
  (match inspect with
   | Some ip => with_Addr ip g
   | None => g
   end, [ContainerInspect (Name g)]).

(** [Game.Reset]. *)
Definition Reset (g : Game) : Game * list Effect :=
  (with_Ready false g, [ContainerKill (Name g) "KILL"]).

(** Modelled from the spec: [Game.HandleThrow] is called by [Loop] but is
    not defined in [game.go]; the spec has it forward the payload to the
    coordinate-computation collaborator of the replica. *)
Definition HandleThrow (g : Game) (payload : string) : list Effect :=
  [ThrowerInput (Name g) payload].

(** The split message of the pearl, nether, end and credits cases. *)
Definition split_text (label : string) (s : Session) (evt : Event) : string :=
  label +:+ ": [" +:+ Sub_String (Timestamp evt) (TimeStart s) +:+ "]".

(** The [switch evt.Type] of [Loop]. *)
Definition dispatch (s : Session) (evt : Event) (inspect : option string)
    : result (Session * list Effect) :=
  let ty := Typ evt in
  if String.eqb ty "cmd.reset" then
    deref_Active s (λ a g,
      let '(g', eff) := Reset g in
      Ok ({| Data := {| Attempt := int_wrap (Attempt (Data s) + 1) |};
             Replicas := <[a := g']> (Replicas s);
             SImage := SImage s; Active := None; State := "";
             TimeStart := TimeStart s |}, eff))
  else if String.eqb ty "cmd.player" then
    deref_Active s (λ _ g, Ok (s, HandleThrow g (Payload evt)))
  else if String.eqb ty "cmd.pearl" then
    deref_Active s (λ _ g,
      Ok (s, HandleThrow g (Payload evt) ++
             Say g (split_text "Pearl" s evt) "green"))
  else if String.eqb ty "generated" then
    match Replicas s !! GameID evt with
    | Some g =>
        let '(g', eff) := Refresh (with_Ready true g) inspect in
        Ok (with_Replicas (<[GameID evt := g']> (Replicas s)) s,
            eff ++ [LogPrintf "[core] server %d is online"
                              [VInt (GameID evt)]])
    | None => Panic
    end
  else if String.eqb ty "login" then
    if negb (String.eqb (State s) "") then Ok (s, [])
    else
      deref_Active s (λ _ g,
        Ok ({| Data := Data s; Replicas := Replicas s; SImage := SImage s;
               Active := Active s; State := "overworld";
               TimeStart := Timestamp evt |},
            Say g ("attempt #" +:+ itoa (Attempt (Data s))) "green" ++
            Command g "/time set 0" ++
            Command g "/save-off"))
  else if String.eqb ty "nether" then
    if negb (String.eqb (State s) "overworld") then Ok (s, [])
    else
      deref_Active s (λ _ g,
        Ok (with_State "nether" s, Say g (split_text "Nether" s evt) "green"))
  else if String.eqb ty "end" then
    if negb (String.eqb (State s) "nether") then Ok (s, [])
    else
      deref_Active s (λ _ g,
        Ok (with_State "end" s, Say g (split_text "End" s evt) "green"))
  else if String.eqb ty "credits" then
    if negb (String.eqb (State s) "end") then Ok (s, [])
    else
      deref_Active s (λ _ g,
        Ok (with_State "credits" s,
            Say g (split_text "Credits" s evt) "green"))
  else Ok (s, []).

(** The [case evt := <-s.Events] of [Loop]. *)
Definition handle_event (s : Session) (evt : Event) (inspect : option string)
    : result (Session * list Effect) :=
  let received := LogPrintf "[core] received '%s' from %d"
                            [VString (Typ evt); VInt (GameID evt)] in
  if unknown_game s evt then
    Ok (s, [received;
            LogPrintf "[core] unknown game ID %d" [VInt (GameID evt)]])
  else if non_active s evt then
    Ok (s, [received;
            LogPrintf "[core] %s event from non-active game %d"
                      [VString (Typ evt); VInt (GameID evt)]])
  else
    match dispatch s evt inspect with
    | Ok (s', eff) => Ok (s', received :: eff)
    | Panic => Panic
    end.

(** One turn of the [for] of [Loop]; a turn that panics has logged the
    reception of its event. *)
Definition Loop_iter (it : Iteration) (s : Session) : Next * list Effect :=
  let '(s1, eff1) := select_active (order it) s in
  match wake it with
  | CtxDone saved =>
      (Return s1,
       eff1 ++ [LogPrintf "[core] shutting down" []; StateFileWrite (Data s1)]
            ++ (if saved then []
                else [LogPrintf "[core] error saving attempt: %s" [VError]]))
  | Recv evt inspect =>
      match handle_event s1 evt inspect with
      | Ok (s2, eff2) => (Continue s2, eff1 ++ eff2)
      | Panic =>
          (Crash,
           eff1 ++ [LogPrintf "[core] received '%s' from %d"
                              [VString (Typ evt); VInt (GameID evt)]])
      end
  end.

(** [Loop], run on the turns [its]: where it stands afterwards and what
    it asked of the outside world. *)
Fixpoint Loop (its : list Iteration) (s : Session) : Next * list Effect :=
  match its with
  | [] => (Continue s, [])
  | it :: rest =>
      match Loop_iter it s with
      | (Continue s', eff) =>
          let '(n, eff') := Loop rest s' in (n, eff ++ eff')
      | stop => stop
      end
  end.

(** The session at the head of each turn of that run, the first one
    included. *)
Fixpoint Loop_states (its : list Iteration) (s : Session) : list Session :=
  s :: match its with
       | [] => []
       | it :: rest =>
           match Loop_iter it s with
           | (Continue s', _) => Loop_states rest s'
           | _ => []
           end
       end.


(** ** Invariant and phase graph *)

(** [len(s.Replicas)]. *)
Definition replica_count (s : Session) : Z := Z.of_nat (size (Replicas s)).

(** What [NewSession] sets up and [Loop] keeps: the replicas are stored
    under the ids [0 .. len-1], each under its own id, and the active
    replica is one of them and is ready. *)
Definition Session_wf (s : Session) : Prop :=
  (∀ k, is_Some (Replicas s !! k) ↔ 0 ≤ k < replica_count s) ∧
  (∀ k g, Replicas s !! k = Some g → ID g = k) ∧
  (∀ a, Active s = Some a → ∃ g, Replicas s !! a = Some g ∧ Ready g = true).

(** The moves of [s.State] an event of a given type may cause. *)
Inductive phase_step : string → string → string → Prop :=
| phase_stay p ty : phase_step p ty p
| phase_login : phase_step "" "login" "overworld"
| phase_nether : phase_step "overworld" "nether" "nether"
| phase_end : phase_step "nether" "end" "end"
| phase_credits : phase_step "end" "credits" "credits"
| phase_reset p : phase_step p "cmd.reset" "".

(** The phase an event type advances from. *)
Definition advances_from (ty : string) : option string :=
  if String.eqb ty "login" then Some ""
  else if String.eqb ty "nether" then Some "overworld"
  else if String.eqb ty "end" then Some "nether"
  else if String.eqb ty "credits" then Some "end"
  else None.

(** The phase it advances to. *)
Definition advances_to (ty : string) : string :=
  if String.eqb ty "login" then "overworld" else ty.

(** [k] is the lowest id among the ready replicas of [m]. *)
Definition lowest_ready (m : gmap Z Game) (k : Z) : Prop :=
  (∃ g, m !! k = Some g ∧ Ready g = true) ∧
  ∀ j g, m !! j = Some g → Ready g = true → k ≤ j.

(** Each of the replicas [0 .. n-1] reports ["generated"] in one of the
    turns [its]. *)
Definition all_reported (n : Z) (its : list Iteration) : Prop :=
  ∀ k, 0 ≤ k < n →
    ∃ it evt inspect, it ∈ its ∧ wake it = Recv evt inspect ∧
      Typ evt = "generated" ∧ GameID evt = k.

(** An event passes the two guards of [Loop]. *)
Definition validated (s : Session) (evt : Event) : Prop :=
  unknown_game s evt = false ∧ non_active s evt = false.

(** The log line every received event starts with. *)
Definition received (evt : Event) : Effect :=
  LogPrintf "[core] received '%s' from %d"
            [VString (Typ evt); VInt (GameID evt)].

Definition is_log (e : Effect) : Prop :=
  match e with LogPrintf _ _ => True | _ => False end.

(** ** Executable checks of the predicates above *)

Definition range_orderb (m : gmap Z Game) (ord : list Z) : bool :=
  bool_decide (NoDup ord) && bool_decide (list_to_set ord = dom m).

Definition lowest_readyb (m : gmap Z Game) (k : Z) : bool :=
  bool_decide (Ready <$> m !! k = Some true) &&
  forallb (λ jg, negb (Ready jg.2) || (k <=? jg.1)) (map_to_list m).

Definition Session_wfb (s : Session) : bool :=
  bool_decide (dom (Replicas s) = list_to_set (seqZ 0 (replica_count s))) &&
  forallb (λ kg, ID kg.2 =? kg.1) (map_to_list (Replicas s)) &&
  match Active s with
  | Some a => bool_decide (Ready <$> Replicas s !! a = Some true)
  | None => true
  end.

Definition reports (k : Z) (it : Iteration) : bool :=
  match wake it with
  | Recv evt _ => String.eqb (Typ evt) "generated" && (GameID evt =? k)
  | CtxDone _ => false
  end.

Definition all_reportedb (n : Z) (its : list Iteration) : bool :=
  forallb (λ k, existsb (reports k) its) (seqZ 0 n).

(** ** Sample sessions, events and lines *)

Definition sample_game (id : Z) (addr : string) (ready : bool) : Game :=
  {| ID := id; Name := "mcspeedrun_" +:+ itoa id; Image := "img";
     Addr := addr; Ready := ready |}.

(** Two replicas; replica 0 is ready and active, replica 1 still boots. *)
Definition sample_session (attempt : Z) (phase : string) : Session :=
  {| Data := {| Attempt := attempt |};
     Replicas := <[0 := sample_game 0 "172.17.0.2" true]>
                 (<[1 := sample_game 1 "" false]> ∅);
     SImage := "img"; Active := Some 0; State := phase;
     TimeStart := Time_zero |}.

(** Three replicas, none active; replicas 1 and 2 are ready. *)
Definition sample_idle_session : Session :=
  {| Data := {| Attempt := 1 |};
     Replicas := <[0 := sample_game 0 "172.17.0.2" false]>
                 (<[1 := sample_game 1 "172.17.0.3" true]>
                 (<[2 := sample_game 2 "172.17.0.4" true]> ∅));
     SImage := "img"; Active := None; State := "";
     TimeStart := Time_zero |}.

Definition sample_time (minute : Z) : Time := Date 2020 12 25 12 minute 56 789.

Definition sample_event (ty : string) (id : Z) (minute : Z) : Event :=
  {| GameID := id; Timestamp := sample_time minute; Typ := ty; Payload := "" |}.

Definition sample_turn (ord : list Z) (ty : string) (id : Z) (minute : Z)
    : Iteration :=
  {| order := ord;
     wake := Recv (sample_event ty id minute)
                  (Some ("172.17.0." +:+ itoa (id + 2))) |}.

(** Three replicas report, the first one is promoted and then reset. *)
Definition three_replica_turns : list Iteration :=
  [sample_turn [0; 1; 2] "generated" 0 30;
   sample_turn [0; 1; 2] "generated" 1 31;
   sample_turn [0; 1; 2] "generated" 2 32;
   sample_turn [0; 1; 2] "cmd.reset" 0 33].

(** The scenario of one replica: report, login, nether a minute later,
    reset. *)
Definition scenario_turns : list Iteration :=
  [sample_turn [0] "generated" 0 33;
   sample_turn [0] "login" 0 34;
   sample_turn [0] "nether" 0 35;
   sample_turn [0] "cmd.reset" 0 36].

(** The session of that scenario: one replica, known once it reported. *)
Definition scenario_start : Session :=
  {| Data := {| Attempt := 0 |};
     Replicas := <[0 := sample_game 0 "" false]> ∅;
     SImage := "img"; Active := None; State := ""; TimeStart := Time_zero |}.

Definition scenario_state (active : option Z) (phase : string) (start : Time)
    : Session :=
  {| Data := {| Attempt := 0 |};
     Replicas := <[0 := sample_game 0 "172.17.0.2" true]> ∅;
     SImage := "img"; Active := active; State := phase; TimeStart := start |}.

Definition retime_line : string :=
  "[12:34:56] [Server thread/INFO]: [Steve: Set the time to 0]".

Definition retime_login_line : string :=
  "[12:34:56] [Server thread/INFO]: [joined the game: Set the time to 0]".

Definition sample_conn (id : nat) : Conn :=
  {| conn_id := id; RemoteAddr := "10.0.0.9:50000" |}.

Definition sample_relay : Relay :=
  {| target := "172.17.0.2"; dial_ok := true; copy_returned := true |}.

(** ** Further definitions: regular expression, parser, session,
    monitor, supervisor *)

(** Every byte of [s] is in the class [cls]. *)
Fixpoint all_in (cls : ascii → bool) (s : string) : bool :=
  match s with
  | EmptyString => true
  | String c s' => cls c && all_in cls s'
  end.

(** [s] does not start with a byte of [cls]. *)
Definition stops (cls : ascii → bool) (s : string) : bool :=
  match s with
  | EmptyString => true
  | String c _ => negb (cls c)
  end.

(** Non-empty and every byte in [cls]: what [[cls]+] matches. *)
Definition some_in (cls : ascii → bool) (s : string) : bool :=
  match s with
  | EmptyString => false
  | String _ _ => all_in cls s
  end.

(** The class [[\s\w/-]] of the second group of [logExpression]. *)
Definition class_thread (c : ascii) : bool :=
  class_s c || class_w c || Ascii.eqb c "/" || Ascii.eqb c "-".

(** A line in the shape [logExpression] describes. *)
Definition envelope (ts thread text : string) : string :=
  "[" +:+ ts +:+ "] [" +:+ thread +:+ "]: " +:+ text.

(** What the first group matches: three runs of digits with colons
    between. *)
Definition clock_shape (ts : string) : Prop :=
  ∃ d1 d2 d3,
    ts = d1 +:+ ":" +:+ d2 +:+ ":" +:+ d3 ∧
    some_in class_d d1 = true ∧ some_in class_d d2 = true ∧
    some_in class_d d3 = true.

(** What a successful run of [rmatch] on [r] amounts to: [r] takes the
    prefix [w] off the text, leaves [rest], and closes the groups [cs]
    (last first). *)
Fixpoint denotes (r : regex) (start : bool) (w rest : string)
    (st : bool) (cs : list string) : Prop :=
  match r with
  | BeginText => start = true ∧ w = "" ∧ st = start ∧ cs = []
  | EndText => rest = "" ∧ w = "" ∧ st = start ∧ cs = []
  | Lit c => w = String c "" ∧ st = false ∧ cs = []
  | Plus cls => some_in cls w = true ∧ st = false ∧ cs = []
  | Cat r1 r2 =>
      ∃ w1 w2 st1 cs1 cs2,
        w = w1 +:+ w2 ∧ denotes r1 start w1 (w2 +:+ rest) st1 cs1 ∧
        denotes r2 st1 w2 rest st cs2 ∧ cs = cs2 ++ cs1
  | Group r1 => ∃ cs1, denotes r1 start w rest st cs1 ∧ cs = w :: cs1
  end.

(** A run of [rmatch] that cannot go wrong: the continuation is tried
    first on the text left after [w]. *)
Definition dmatch (r : regex) (start : bool) (w rest : string)
    (st : bool) (cs : list string) : Prop :=
  ∀ caps k res,
    k st rest (cs ++ caps) = Some res →
    rmatch r start (w +:+ rest) caps k = Some res.

(** The event types [HandleLog] can give an event. *)
Definition parser_types : list string :=
  ["cmd.reset"; "cmd.retime"; "generated"; "login"; "nether"; "end";
   "credits"].

(** The record [NewGame] creates for the id [k]. *)
Definition new_game (image : string) (k : Z) : Game :=
  {| ID := k; Name := "mcspeedrun_" +:+ itoa k; Image := image;
     Addr := ""; Ready := false |}.

(** The phases. *)
Definition phases : list string :=
  [""; "overworld"; "nether"; "end"; "credits"].

(** What a running session keeps besides [Session_wf]: the replicas
    bear the names and the image [NewGame] gave them, the phase is one
    of the five, and an attempt in progress has an active replica. *)
Definition Session_inv (image : string) (s : Session) : Prop :=
  Session_wf s ∧
  (∀ k g, Replicas s !! k = Some g →
          Name g = "mcspeedrun_" +:+ itoa k ∧ Image g = image) ∧
  State s ∈ phases ∧
  (State s ≠ "" → is_Some (Active s)).

(** The addresses sent to the proxy, the state-file writes and the
    container kills among some effects. *)
Definition proxy_sends (eff : list Effect) : list string :=
  omap (λ e, match e with ProxyAddrSend a => Some a | _ => None end) eff.

Definition file_writes (eff : list Effect) : list SessionData :=
  omap (λ e, match e with StateFileWrite d => Some d | _ => None end) eff.

Definition kills (eff : list Effect) : list string :=
  omap (λ e, match e with ContainerKill n _ => Some n | _ => None end) eff.

(** Where a finished or interrupted run of [Loop] left the session. *)
Definition final_session (n : Next) : option Session :=
  match n with
  | Continue s | Return s => Some s
  | Crash => None
  end.

(** The event of a turn, if it has one. *)
Definition turn_event (it : Iteration) : option Event :=
  match wake it with
  | Recv evt _ => Some evt
  | CtxDone _ => None
  end.

(** An effect that is neither a message to the proxy, nor a write of
    the state file, nor the kill of a container. *)
Definition quiet (e : Effect) : Prop :=
  match e with
  | ProxyAddrSend _ | StateFileWrite _ | ContainerKill _ _ => False
  | _ => True
  end.

(** What a handled event does to the session, case by case, with the
    effects that matter outside. *)
Inductive event_step (s : Session) (evt : Event) (inspect : option string)
    : Session → list Effect → Prop :=
| step_none eff :
    Forall quiet eff →
    event_step s evt inspect s eff
| step_reset a g :
    Typ evt = "cmd.reset" → Active s = Some a → Replicas s !! a = Some g →
    ID g = GameID evt →
    event_step s evt inspect
      {| Data := {| Attempt := int_wrap (Attempt (Data s) + 1) |};
         Replicas := <[a := with_Ready false g]> (Replicas s);
         SImage := SImage s; Active := None; State := "";
         TimeStart := TimeStart s |}
      [received evt; ContainerKill (Name g) "KILL"]
| step_generated g eff :
    Typ evt = "generated" → Replicas s !! GameID evt = Some g →
    Forall quiet eff →
    event_step s evt inspect
      (with_Replicas
         (<[GameID evt := (Refresh (with_Ready true g) inspect).1]>
            (Replicas s)) s) eff
| step_login a eff :
    Typ evt = "login" → State s = "" → Active s = Some a →
    Forall quiet eff →
    event_step s evt inspect
      {| Data := Data s; Replicas := Replicas s; SImage := SImage s;
         Active := Active s; State := "overworld";
         TimeStart := Timestamp evt |} eff
| step_advance a req eff :
    Typ evt ∈ ["nether"; "end"; "credits"] →
    advances_from (Typ evt) = Some req → State s = req →
    Active s = Some a →
    Forall quiet eff →
    event_step s evt inspect (with_State (Typ evt) s) eff.

(** The containers some effects write a console command to, kill, or
    whose collaborator they feed. *)
Definition commanded (eff : list Effect) : list string :=
  omap (λ e, match e with
             | ContainerAttach n _ | ContainerKill n _ | ThrowerInput n _ =>
                 Some n
             | _ => None
             end) eff.

(** The inputs given to the coordinate-computation collaborators. *)
Definition thrower_inputs (eff : list Effect) : list string :=
  omap (λ e, match e with ThrowerInput _ p => Some p | _ => None end) eff.

(** [bufio.Reader.ReadString(delim)] on what is left of a stream that
    then ends: the bytes up to and including the first [delim], and what
    follows them; [None] is the error of a stream that ends before any
    [delim] (the bytes read so far are returned with the error, and
    [Monitor] drops them). *)
Fixpoint ReadString (delim : ascii) (s : string) : option (string * string) :=
  match s with
  | "" => None
  | String c r =>
      if Ascii.eqb c delim then Some (String c "", r)
      else match ReadString delim r with
           | Some (line, rest) => Some (String c line, rest)
           | None => None
           end
  end.

Definition in_cutset (cutset : string) (c : ascii) : bool :=
  existsb (Ascii.eqb c) (list_ascii_of_string cutset).

(** [strings.TrimLeft], [strings.TrimRight] and [strings.Trim] for a
    cutset of ASCII bytes. *)
Fixpoint TrimLeft (cutset s : string) : string :=
  match s with
  | "" => ""
  | String c r => if in_cutset cutset c then TrimLeft cutset r else s
  end.

Fixpoint TrimRight (cutset s : string) : string :=
  match s with
  | "" => ""
  | String c r =>
      match TrimRight cutset r with
      | "" => if in_cutset cutset c then "" else String c ""
      | r' => String c r'
      end
  end.

Definition Trim (cutset s : string) : string :=
  TrimRight cutset (TrimLeft cutset s).

Definition cr : string := String "013"%char EmptyString.
Definition crlf : string := String "013"%char nl.

(** The lines the inner [for] of [Monitor] hands to [HandleLog] while it
    reads the stream [s], up to the read error that ends it; every turn
    consumes at least one byte, so [fuel] need not exceed the length of
    the stream. *)
Fixpoint read_lines (fuel : nat) (s : string) : list string :=
  match fuel with
  | O => []
  | S fuel' =>
      match ReadString "010" s with
      | None => []
      | Some (line, rest) => Trim crlf line :: read_lines fuel' rest
      end
  end.

Definition Monitor_lines (s : string) : list string :=
  read_lines (String.length s) s.

Definition head_byte (s : string) : option ascii :=
  match s with
  | "" => None
  | String c _ => Some c
  end.

Fixpoint last_byte (s : string) : option ascii :=
  match s with
  | "" => None
  | String c "" => Some c
  | String _ r => last_byte r
  end.

(** A line without a newline that neither starts nor ends with a
    carriage return. *)
Definition plain (l : string) : bool :=
  all_in class_dot l &&
  negb (bool_decide (head_byte l = Some "013"%char)) &&
  negb (bool_decide (last_byte l = Some "013"%char)).

(** The stream in which the lines [ls] are written one after the other,
    each followed by a carriage return and a newline, and then the
    unfinished line [partial]. *)
Definition log_stream (ls : list string) (partial : string) : string :=
  foldr (λ l rest, l +:+ crlf +:+ rest) partial ls.

(** What [Start] and [Launch] ask of the Docker daemon, and what they
    log. *)
Inductive DockerCall :=
| ContainerWait (name condition : string)
| ContainerCreate (image user : string) (tty open_stdin auto_remove : bool)
                  (name : string)
| ContainerStart (id : string)
| DockerLog (format : string) (args : list Value).

(** [Game.Start]; [created] is the id [ContainerCreate] answers ([None]
    when it fails), [started] whether [ContainerStart] succeeds. The
    boolean is [err == nil]. *)
Definition Start (g : Game) (created : option string) (started : bool)
    : bool * list DockerCall :=
  match created with
  | None =>
      (false, [ContainerCreate (Image g) "1337:1337" true true true (Name g)])
  | Some id =>
      if started then
        (true, [ContainerCreate (Image g) "1337:1337" true true true (Name g);
                ContainerStart id;
                DockerLog "[%s] started container" [VString (Name g)]])
      else
        (false, [ContainerCreate (Image g) "1337:1337" true true true (Name g);
                 ContainerStart id])
  end.

(** Which case of the [select] of [Launch] fires. *)
Inductive WaitOutcome := Removed | WaitError | Cancelled.

(** One turn of the [for] of [Launch], as the outside world answers. *)
Record Round :=
  { waited : WaitOutcome; created : option string; started : bool }.

(** [Game.Launch] on the turns [rounds]. *)
Fixpoint Launch (g : Game) (rounds : list Round) : list DockerCall :=
  match rounds with
  | [] => []
  | r :: rest =>
      ContainerWait (Name g) "removed" ::
      match waited r with
      | Cancelled => []
      | w =>
          DockerLog (match w with
                     | Removed => "[%s], removed container"
                     | _ => "[%s] error waiting for container: %s"
                     end)
                    (match w with
                     | Removed => [VString (Name g)]
                     | _ => [VString (Name g); VError]
                     end) ::
          let '(ok, calls) := Start g (created r) (started r) in
          calls ++
          (if ok then []
           else [DockerLog "[%s] error starting container: %s"
                           [VString (Name g); VError]]) ++
          Launch g rest
      end
  end.

(** The turns before the first cancelled one. *)
Fixpoint live_rounds (rounds : list Round) : list Round :=
  match rounds with
  | [] => []
  | r :: rest =>
      match waited r with
      | Cancelled => []
      | _ => r :: live_rounds rest
      end
  end.

(** The containers created (image and name) and the ids started. *)
Definition creates (calls : list DockerCall) : list (string * string) :=
  omap (λ c, match c with
             | ContainerCreate image _ _ _ _ name => Some (image, name)
             | _ => None
             end) calls.

Definition starts (calls : list DockerCall) : list string :=
  omap (λ c, match c with ContainerStart id => Some id | _ => None end) calls.

(** A console input that is one line. *)
Definition one_line (e : Effect) : Prop :=
  match e with
  | ContainerAttach _ input =>
      ∃ body, input = body +:+ nl ∧ Contains body nl = false
  | _ => True
  end.

(** Further samples. *)
Definition login_line : string :=
  "[12:34:56] [Server thread/INFO]: Steve joined the game".

Definition login_line_event : Event :=
  {| GameID := 0; Timestamp := Date 2020 12 25 12 34 56 789;
     Typ := "login"; Payload := "Steve joined the game" |}.

(** The session at the end of the scenario. *)
Definition scenario_end : Session :=
  {| Data := {| Attempt := 1 |};
     Replicas := <[0 := sample_game 0 "172.17.0.2" false]> ∅;
     SImage := "img"; Active := None; State := "";
     TimeStart := sample_time 34 |}.

(** The session after the reset of replica 0 of [sample_session]. *)
Definition sample_reset_session (attempt : Z) : Session :=
  {| Data := {| Attempt := attempt |};
     Replicas := <[0 := sample_game 0 "172.17.0.2" false]>
                 (<[1 := sample_game 1 "" false]> ∅);
     SImage := "img"; Active := None; State := "";
     TimeStart := Time_zero |}.

(** The session after the report of replica 1 of [sample_session]. *)
Definition sample_reported_session (attempt : Z) (phase : string) : Session :=
  {| Data := {| Attempt := attempt |};
     Replicas := <[0 := sample_game 0 "172.17.0.2" true]>
                 (<[1 := sample_game 1 "172.17.0.3" true]> ∅);
     SImage := "img"; Active := Some 0; State := phase;
     TimeStart := Time_zero |}.

(** The session after the login of replica 0 of [sample_session], and
    what the login writes. *)
Definition sample_login_session (attempt : Z) : Session :=
  {| Data := {| Attempt := attempt |};
     Replicas := Replicas (sample_session attempt "");
     SImage := "img"; Active := Some 0; State := "overworld";
     TimeStart := sample_time 40 |}.

Definition sample_login_effects : list Effect :=
  [LogPrintf "[core] received '%s' from %d" [VString "login"; VInt 0];
   ContainerAttach "mcspeedrun_0"
     ("/tellraw @a " +:+
      go_json_Marshal [{| Text := "attempt #3"; Color := "green" |}] +:+ nl);
   ContainerAttach "mcspeedrun_0" ("/time set 0" +:+ nl);
   ContainerAttach "mcspeedrun_0" ("/save-off" +:+ nl)].

Definition sample_failed_relay : Relay :=
  {| target := "172.17.0.2"; dial_ok := false; copy_returned := false |}.

(** Replica 1 has reported and logged in after the reset of replica 0. *)
Definition sample_second_session : Session :=
  {| Data := {| Attempt := 4 |};
     Replicas := <[0 := sample_game 0 "172.17.0.2" false]>
                 (<[1 := sample_game 1 "172.17.0.3" true]> ∅);
     SImage := "img"; Active := Some 1; State := "overworld";
     TimeStart := sample_time 42 |}.

(** ** The executable checks are sound *)

Lemma range_orderb_spec m ord : range_orderb m ord = true → range_order m ord.
Proof.
  unfold range_orderb, range_order.
  intros [Hnd Hdom]%andb_true_iff.
  apply bool_decide_eq_true in Hnd, Hdom. split; [done|].
  intros k. rewrite <- elem_of_dom, <- Hdom. by rewrite elem_of_list_to_set.
Qed.

Lemma lowest_readyb_spec m k : lowest_readyb m k = true → lowest_ready m k.
Proof.
  unfold lowest_readyb, lowest_ready.
  intros [Hk Hall]%andb_true_iff. apply bool_decide_eq_true in Hk.
  split.
  - destruct (m !! k) as [g|]; [|done]. simpl in Hk.
    exists g. split; [done | congruence].
  - intros j g Hj Hr. rewrite forallb_forall in Hall.
    specialize (Hall (j, g)). simpl in Hall. rewrite Hr in Hall.
    apply Z.leb_le, Hall. apply list_elem_of_In. by apply elem_of_map_to_list.
Qed.

Lemma Session_wfb_spec s : Session_wfb s = true → Session_wf s.
Proof.
  unfold Session_wfb, Session_wf.
  intros [[Hdom Hids]%andb_true_iff Hact]%andb_true_iff.
  apply bool_decide_eq_true in Hdom. split_and!.
  - intros k. rewrite <- elem_of_dom, Hdom, elem_of_list_to_set, elem_of_seqZ.
    lia.
  - intros k g Hk. rewrite forallb_forall in Hids.
    apply (Z.eqb_eq (ID g) k), (Hids (k, g)), list_elem_of_In.
    by apply elem_of_map_to_list.
  - intros a Ha. rewrite Ha in Hact. apply bool_decide_eq_true in Hact.
    destruct (Replicas s !! a) as [g|]; [|done]. simpl in Hact.
    exists g. split; [done | congruence].
Qed.

Lemma all_reportedb_spec n its : all_reportedb n its = true → all_reported n its.
Proof.
  unfold all_reportedb, all_reported. rewrite forallb_forall.
  intros Hall k Hk.
  assert (existsb (reports k) its = true) as Hex.
  { apply Hall, list_elem_of_In, elem_of_seqZ. lia. }
  apply existsb_exists in Hex as (it & Hin & Hrep).
  unfold reports in Hrep. destruct (wake it) as [|evt inspect] eqn:Hw; [done|].
  apply andb_true_iff in Hrep as [Hty Hid].
  exists it, evt, inspect. split_and!; try done.
  - by apply list_elem_of_In.
  - by apply String.eqb_eq.
  - by apply Z.eqb_eq.
Qed.

(** ** Basic facts *)

Lemma int_wrap_id z : int_min ≤ z ≤ int_max → int_wrap z = z.
Proof.
  unfold int_min, int_max, int_wrap. intros H.
  rewrite Z.mod_small by lia. lia.
Qed.

Lemma active_game_Some s g :
  active_game s = Some g ↔ ∃ a, Active s = Some a ∧ Replicas s !! a = Some g.
Proof.
  unfold active_game. destruct (Active s) as [a|]; simpl.
  - split; [eauto | by intros (? & [= <-] & ?)].
  - split; [done | by intros (? & ? & ?)].
Qed.

Lemma deref_Active_Some {A} s a g (k : Z → Game → result A) :
  Active s = Some a → Replicas s !! a = Some g → deref_Active s k = k a g.
Proof. unfold deref_Active. by intros -> ->. Qed.

Lemma validated_active s evt :
  validated s evt → Typ evt ≠ "generated" →
  ∃ a g, Active s = Some a ∧ Replicas s !! a = Some g ∧ ID g = GameID evt.
Proof.
  intros [_ Hna] Hty. unfold non_active in Hna.
  apply String.eqb_neq in Hty. rewrite Hty in Hna. simpl in Hna.
  rewrite andb_true_r in Hna.
  destruct (active_game s) as [g|] eqn:Hg; [|done].
  apply active_game_Some in Hg as (a & Ha & Hg).
  apply negb_false_iff, Z.eqb_eq in Hna. eauto.
Qed.

Lemma handle_event_validated s evt inspect :
  validated s evt →
  handle_event s evt inspect =
    match dispatch s evt inspect with
    | Ok (s', eff) => Ok (s', received evt :: eff)
    | Panic => Panic
    end.
Proof. intros [Hu Hn]. unfold handle_event. by rewrite Hu, Hn. Qed.

Lemma known_game s evt g :
  Session_wf s → Replicas s !! GameID evt = Some g → unknown_game s evt = false.
Proof.
  intros (Hdom & _) Hk. unfold unknown_game.
  apply Z.leb_gt. assert (is_Some (Replicas s !! GameID evt)) as Hs by eauto.
  apply Hdom in Hs. unfold replica_count in Hs. lia.
Qed.

(** ** The guards *)

(** C6: an event whose [GameID] is at least the number of replicas is
    dropped: the session is returned as it was, and the only effects are
    the two log lines. *)
Theorem unknown_game_dropped s evt inspect :
  replica_count s ≤ GameID evt →
  handle_event s evt inspect =
    Ok (s, [received evt;
            LogPrintf "[core] unknown game ID %d" [VInt (GameID evt)]]).
Proof.
  intros Hge. unfold handle_event, unknown_game.
  fold (replica_count s). apply Z.leb_le in Hge. by rewrite Hge.
Qed.

(** C5: an event of a type other than ["generated"] whose [GameID] is
    not the id of the active replica, or that arrives while no replica is
    active, is dropped: the session is returned as it was (phase, attempt
    counter, active replica, start time and every replica's readiness),
    whatever the phase, and only log lines are written. A ["generated"]
    event is handled for the id of any replica, active or not: that
    replica becomes ready and its address is refreshed. *)
Theorem non_active_dropped s evt inspect :
  (Typ evt ≠ "generated" →
   (∀ g, active_game s = Some g → ID g ≠ GameID evt) →
   ∃ eff, handle_event s evt inspect = Ok (s, eff) ∧ Forall is_log eff) ∧
  (Typ evt = "generated" → Session_wf s →
   ∀ g, Replicas s !! GameID evt = Some g →
     validated s evt ∧
     handle_event s evt inspect =
       Ok (with_Replicas
             (<[GameID evt := (Refresh (with_Ready true g) inspect).1]>
                (Replicas s)) s,
           [received evt; ContainerInspect (Name g);
            LogPrintf "[core] server %d is online" [VInt (GameID evt)]])).
Proof.
  split.
  - intros Hty Hid. unfold handle_event.
    destruct (unknown_game s evt).
    { eexists. split; [done|]. repeat constructor. }
    assert (non_active s evt = true) as ->.
    { unfold non_active. apply String.eqb_neq in Hty. rewrite Hty. simpl.
      rewrite andb_true_r. destruct (active_game s) as [g|]; [|done].
      apply negb_true_iff, Z.eqb_neq. intros Heq.
      by apply (Hid g). }
    eexists. split; [done|]. repeat constructor.
  - intros Hty Hwf g Hg.
    assert (validated s evt) as Hv.
    { split.
      - by apply (known_game s evt g).
      - unfold non_active. rewrite Hty. simpl. apply andb_false_r. }
    split; [done|].
    rewrite handle_event_validated by done.
    unfold dispatch. rewrite Hty. simpl. by rewrite Hg.
Qed.

(** C10: an event of a type other than ["generated"] that reaches the
    [switch] finds [s.Active] non-nil, pointing to the replica whose id
    is the event's [GameID]; its handler does not panic. *)
Theorem dispatch_active_non_nil s evt inspect :
  validated s evt → Typ evt ≠ "generated" →
  ∃ a g, Active s = Some a ∧ Replicas s !! a = Some g ∧
         ID g = GameID evt ∧
         ∃ r, dispatch s evt inspect = Ok r ∧
              handle_event s evt inspect = Ok (r.1, received evt :: r.2).
Proof.
  intros Hv Hty.
  destruct (validated_active s evt Hv Hty) as (a & g & Ha & Hg & Hid).
  exists a, g. split_and!; try done.
  rewrite handle_event_validated by done.
  unfold dispatch.
  apply String.eqb_neq in Hty. rewrite Hty.
  repeat match goal with
  | |- context [deref_Active s ?k] => rewrite (deref_Active_Some s a g k Ha Hg)
  end.
  unfold Reset.
  repeat match goal with
  | |- context [if ?b then _ else _] => destruct b
  end; eexists; (split; [reflexivity|]); done.
Qed.

(** ** The handlers *)

(** C4 (amended): a ["cmd.reset"] event that passes the guards sets the
    phase to idle and clears the active replica whatever the phase was,
    marks the replica that was active not ready and kills its container,
    and adds one to the attempt counter in [int] arithmetic: exactly one
    below the largest [int], and from the largest [int] round to the
    smallest. *)
Theorem reset_event s evt inspect :
  validated s evt → Typ evt = "cmd.reset" →
  ∃ a g s',
    Active s = Some a ∧ Replicas s !! a = Some g ∧
    handle_event s evt inspect =
      Ok (s', [received evt; ContainerKill (Name g) "KILL"]) ∧
    s' = {| Data := {| Attempt := int_wrap (Attempt (Data s) + 1) |};
            Replicas := <[a := with_Ready false g]> (Replicas s);
            SImage := SImage s; Active := None; State := "";
            TimeStart := TimeStart s |} ∧
    State s' = "" ∧ Active s' = None ∧
    (int_min ≤ Attempt (Data s) < int_max →
     Attempt (Data s') = Attempt (Data s) + 1) ∧
    (Attempt (Data s) = int_max → Attempt (Data s') = int_min).
Proof.
  intros Hv Hty.
  destruct (validated_active s evt Hv) as (a & g & Ha & Hg & _).
  { by rewrite Hty. }
  exists a, g. eexists. split; [done|]. split; [done|].
  split.
  { rewrite handle_event_validated by done.
    unfold dispatch. rewrite Hty. simpl.
    by rewrite (deref_Active_Some s a g _ Ha Hg). }
  split; [reflexivity|]. split; [done|]. split; [done|]. simpl. split.
  - intros Hlt. apply int_wrap_id. unfold int_min, int_max in *. lia.
  - intros ->. reflexivity.
Qed.

(** C7: a ["login"] event that passes the guards changes the session
    only in the idle phase: the phase becomes overworld, the start time
    the event's timestamp, and the active replica is sent the attempt
    number in green and then the two commands [/time set 0] and
    [/save-off]. In any other phase nothing changes and nothing is
    sent. *)
Theorem login_event s evt inspect :
  validated s evt → Typ evt = "login" →
  ∃ a g,
    Active s = Some a ∧ Replicas s !! a = Some g ∧
    handle_event s evt inspect =
      if String.eqb (State s) "" then
        Ok ({| Data := Data s; Replicas := Replicas s; SImage := SImage s;
               Active := Active s; State := "overworld";
               TimeStart := Timestamp evt |},
            [received evt;
             ContainerAttach (Name g)
               ("/tellraw @a " +:+
                json_Marshal
                  [{| Text := "attempt #" +:+ itoa (Attempt (Data s));
                      Color := "green" |}] +:+ nl);
             ContainerAttach (Name g) ("/time set 0" +:+ nl);
             ContainerAttach (Name g) ("/save-off" +:+ nl)])
      else Ok (s, [received evt]).
Proof.
  intros Hv Hty.
  destruct (validated_active s evt Hv) as (a & g & Ha & Hg & _).
  { by rewrite Hty. }
  exists a, g. split_and!; try done.
  rewrite handle_event_validated by done.
  unfold dispatch. rewrite Hty. simpl.
  destruct (String.eqb (State s) ""); simpl; [|done].
  by rewrite (deref_Active_Some s a g _ Ha Hg).
Qed.

(** The [switch] has no case for ["cmd.retime"]. *)
Lemma retime_ignored s evt inspect :
  Typ evt = "cmd.retime" →
  ∃ eff, handle_event s evt inspect = Ok (s, eff) ∧ Forall is_log eff ∧
         (validated s evt → eff = [received evt]).
Proof.
  intros Hty. unfold handle_event, validated.
  destruct (unknown_game s evt).
  { eexists. split; [done|]. split; [repeat constructor | by intros [? ?]]. }
  destruct (non_active s evt).
  { eexists. split; [done|]. split; [repeat constructor | by intros [? ?]]. }
  unfold dispatch. rewrite Hty. simpl.
  eexists. split; [done|]. split; [repeat constructor|].
  intros _. unfold received. by rewrite Hty.
Qed.

(** ** Phases *)

Lemma select_active_State ord s : State (select_active ord s).1 = State s.
Proof.
  unfold select_active. destruct (Active s); [done|].
  by destruct (first_ready ord (Replicas s)) as [[k g]|].
Qed.

Lemma dispatch_phase s evt inspect s' eff :
  dispatch s evt inspect = Ok (s', eff) →
  phase_step (State s) (Typ evt) (State s').
Proof.
  unfold dispatch, deref_Active.
  repeat match goal with
  | |- context [String.eqb ?x ?y] => destruct (String.eqb_spec x y)
  end;
  repeat match goal with
  | |- context [match ?o with Some _ => _ | None => _ end] => destruct o
  end; simpl; intros [= <- <-]; simpl;
  repeat match goal with H : _ = _ |- _ => rewrite H end;
  try constructor; done.
Qed.

Lemma handle_event_phase s evt inspect s' eff :
  handle_event s evt inspect = Ok (s', eff) →
  phase_step (State s) (Typ evt) (State s').
Proof.
  unfold handle_event.
  destruct (unknown_game s evt); [intros [= <- <-]; constructor|].
  destruct (non_active s evt); [intros [= <- <-]; constructor|].
  destruct (dispatch s evt inspect) as [[s2 eff2]|] eqn:Hd; [|done].
  intros [= <- <-]. by eapply dispatch_phase.
Qed.

Lemma handle_event_advances s evt inspect req :
  validated s evt → advances_from (Typ evt) = Some req → State s = req →
  ∃ s' eff, handle_event s evt inspect = Ok (s', eff) ∧
            State s' = advances_to (Typ evt).
Proof.
  intros Hv Hadv Hst.
  assert (Typ evt ≠ "generated") as Hty.
  { intros Heq. by rewrite Heq in Hadv. }
  destruct (validated_active s evt Hv Hty) as (a & g & Ha & Hg & _).
  rewrite handle_event_validated by done.
  unfold advances_from, advances_to in *. unfold dispatch.
  repeat match goal with
  | |- context [deref_Active s ?k] => rewrite (deref_Active_Some s a g k Ha Hg)
  end.
  repeat match type of Hadv with
  | context [String.eqb ?x ?y] =>
      destruct (String.eqb_spec x y) as [Heq|?];
      [rewrite Heq; simpl; injection Hadv as <-; rewrite Hst; simpl;
       by eauto|]
  end.
  done.
Qed.

Lemma Loop_iter_Continue it s s' eff :
  Loop_iter it s = (Continue s', eff) →
  ∃ evt inspect eff',
    wake it = Recv evt inspect ∧
    handle_event (select_active (order it) s).1 evt inspect = Ok (s', eff').
Proof.
  unfold Loop_iter.
  destruct (select_active (order it) s) as [s1 eff1]. simpl.
  destruct (wake it) as [saved|evt inspect]; [done|].
  destruct (handle_event s1 evt inspect) as [[s2 eff2]|] eqn:Hh; [|done].
  intros [= <- <-]. eauto.
Qed.

Lemma Loop_states_step its s i s1 s2 :
  Loop_states its s !! i = Some s1 →
  Loop_states its s !! S i = Some s2 →
  ∃ it eff, its !! i = Some it ∧ Loop_iter it s1 = (Continue s2, eff).
Proof.
  revert s i. induction its as [|it rest IH]; intros s i H1 H2.
  - destruct i; simpl in *; done.
  - simpl in H1, H2.
    destruct (Loop_iter it s) as [[s'| |] eff] eqn:Hit;
      try (destruct i; simpl in *; done).
    destruct i as [|i].
    + simpl in H1. injection H1 as <-.
      destruct rest; simpl in H2; injection H2 as <-; eauto.
    + simpl in H1. apply (IH s' i); [done|].
      by simpl in H2.
Qed.

Lemma phase_step_wrong p ty p' req :
  phase_step p ty p' → advances_from ty = Some req → p ≠ req → p' = p.
Proof. intros H. inversion H; subst; simpl; try done; by intros [= <-]. Qed.

Lemma phase_step_idle p ty :
  phase_step p ty "" → p ≠ "" → ty = "cmd.reset".
Proof. intros H. by inversion H. Qed.

(** C2: along every run of the loop, from one turn to the next the
    phase stays, or moves one step forward on the event meant for that
    step (["login"] from idle to overworld, ["nether"], ["end"] and
    ["credits"] each from the phase just before), or goes to idle on
    ["cmd.reset"]. So only ["cmd.reset"] leads back to idle, and a
    ["login"], ["nether"], ["end"] or ["credits"] event met in any other
    phase than the one it advances from leaves the phase as it is; met
    in that phase, and past the guards, it does advance the phase. *)
Theorem phase_moves its s i s1 s2 :
  Loop_states its s !! i = Some s1 →
  Loop_states its s !! S i = Some s2 →
  ∃ it evt inspect,
    its !! i = Some it ∧ wake it = Recv evt inspect ∧
    phase_step (State s1) (Typ evt) (State s2) ∧
    (State s2 = "" → State s1 ≠ "" → Typ evt = "cmd.reset") ∧
    (∀ req, advances_from (Typ evt) = Some req → State s1 ≠ req →
            State s2 = State s1) ∧
    (∀ req, advances_from (Typ evt) = Some req → State s1 = req →
            validated (select_active (order it) s1).1 evt →
            State s2 = advances_to (Typ evt)).
Proof.
  intros H1 H2.
  destruct (Loop_states_step its s i s1 s2 H1 H2) as (it & eff & Hit & Hstep).
  destruct (Loop_iter_Continue it s1 s2 eff Hstep)
    as (evt & inspect & eff' & Hw & Hh).
  pose proof (handle_event_phase _ _ _ _ _ Hh) as Hp.
  rewrite select_active_State in Hp.
  exists it, evt, inspect. split_and!; try done.
  - intros Hidle. rewrite Hidle in Hp. by apply phase_step_idle.
  - intros req. by apply phase_step_wrong.
  - intros req Hadv Hst Hv.
    rewrite <- (select_active_State (order it) s1) in Hst.
    destruct (handle_event_advances _ evt inspect req Hv Hadv Hst)
      as (s' & eff2 & Hh' & Hs').
    rewrite Hh in Hh'. by injection Hh' as <- <-.
Qed.

(** ** The invariant *)

Lemma size_of_keys (m : gmap Z Game) (l : list Z) :
  NoDup l → (∀ k, is_Some (m !! k) ↔ k ∈ l) → size m = length l.
Proof.
  intros Hnd Hkeys.
  rewrite <- size_dom, <- (size_list_to_set (C := gset Z) l) by done.
  f_equal. apply set_eq. intros k.
  rewrite elem_of_dom, elem_of_list_to_set. apply Hkeys.
Qed.

Lemma foldl_NewGame_fields l s :
  Data (foldl NewGame s l) = Data s ∧ SImage (foldl NewGame s l) = SImage s ∧
  Active (foldl NewGame s l) = Active s ∧ State (foldl NewGame s l) = State s ∧
  TimeStart (foldl NewGame s l) = TimeStart s.
Proof.
  revert s. induction l as [|x l IH]; intros s; simpl; [done|].
  destruct (IH (NewGame s x)) as (-> & -> & -> & -> & ->). done.
Qed.

Lemma foldl_NewGame_lookup l s k :
  Replicas (foldl NewGame s l) !! k =
    if decide (k ∈ l) then
      Some {| ID := k; Image := SImage s; Name := "mcspeedrun_" +:+ itoa k;
              Addr := ""; Ready := false |}
    else Replicas s !! k.
Proof.
  revert s. induction l as [|x l IH]; intros s.
  - case_decide as Hin; [by apply elem_of_nil in Hin | done].
  - change (foldl NewGame s (x :: l)) with (foldl NewGame (NewGame s x) l).
    rewrite IH. destruct (decide (k ∈ l)) as [Hin|Hnin].
    + rewrite decide_True by (by right). done.
    + unfold NewGame at 1. simpl.
      destruct (decide (k = x)) as [->|Hne].
      * rewrite decide_True by (by left). by rewrite lookup_insert_eq.
      * rewrite decide_False by (by intros [?|?]%elem_of_cons).
        by rewrite lookup_insert_ne.
Qed.

(** [NewSession] yields a well-formed idle session with as many
    replicas as asked for, none of them ready. *)
Lemma NewSession_wf load image replicas s :
  NewSession load image replicas = Some s →
  Session_wf s ∧ replica_count s = Z.max 0 replicas ∧
  Active s = None ∧ State s = "" ∧
  ∀ k g, Replicas s !! k = Some g → Ready g = false.
Proof.
  intros Hnew.
  assert (∃ d, s = foldl NewGame
            {| Data := d; Replicas := ∅; SImage := image; Active := None;
               State := ""; TimeStart := Time_zero |} (seqZ 0 replicas))
    as [d ->].
  { destruct load; simpl in Hnew; [injection Hnew as <- ..| |done]; eauto.
    injection Hnew as <-. eauto. }
  set (s0 := Build_Session _ _ _ _ _ _).
  destruct (foldl_NewGame_fields (seqZ 0 replicas) s0) as (_ & _ & Ha & Hs & _).
  assert (∀ k, is_Some (Replicas (foldl NewGame s0 (seqZ 0 replicas)) !! k)
               ↔ k ∈ seqZ 0 replicas) as Hkeys.
  { intros k. rewrite foldl_NewGame_lookup. case_decide; simpl.
    - split; [done | eauto].
    - rewrite lookup_empty. split; [by intros [? ?] | done]. }
  assert (replica_count (foldl NewGame s0 (seqZ 0 replicas))
          = Z.max 0 replicas) as Hcount.
  { unfold replica_count.
    rewrite (size_of_keys _ (seqZ 0 replicas) (NoDup_seqZ _ _) Hkeys).
    rewrite length_seqZ. lia. }
  split_and!; try done.
  - split_and!.
    + intros k. rewrite Hkeys, elem_of_seqZ, Hcount. lia.
    + intros k g. rewrite foldl_NewGame_lookup. case_decide; simpl.
      * by intros [= <-].
      * by rewrite lookup_empty.
    + intros a. by rewrite Ha.
  - intros k g. rewrite foldl_NewGame_lookup. case_decide; simpl.
    + by intros [= <-].
    + by rewrite lookup_empty.
Qed.

Lemma first_ready_Some ord m k g :
  first_ready ord m = Some (k, g) →
  m !! k = Some g ∧ Ready g = true ∧
  ∃ pre post, ord = pre ++ k :: post ∧
    ∀ j g', j ∈ pre → m !! j = Some g' → Ready g' = false.
Proof.
  induction ord as [|x ord IH]; simpl; [done|].
  destruct (m !! x) as [gx|] eqn:Hx.
  - destruct (Ready gx) eqn:Hr.
    + intros [= <- <-]. split_and!; try done.
      exists [], ord. split; [done|]. intros j g' Hj. by apply elem_of_nil in Hj.
    + intros Hf. destruct (IH Hf) as (Hk & Hrk & pre & post & -> & Hpre).
      split_and!; try done. exists (x :: pre), post. split; [done|].
      intros j g' [->|Hj]%elem_of_cons Hg'; [congruence | eauto].
  - intros Hf. destruct (IH Hf) as (Hk & Hrk & pre & post & -> & Hpre).
    split_and!; try done. exists (x :: pre), post. split; [done|].
    intros j g' [->|Hj]%elem_of_cons Hg'; [congruence | eauto].
Qed.

Lemma first_ready_None ord m k g :
  first_ready ord m = None → k ∈ ord → m !! k = Some g → Ready g = false.
Proof.
  induction ord as [|x ord IH]; simpl; [by intros _ ?%elem_of_nil|].
  intros Hf [->|Hin]%elem_of_cons Hk.
  - rewrite Hk in Hf. by destruct (Ready g).
  - destruct (m !! x) as [gx|]; [destruct (Ready gx); [done|]|]; eauto.
Qed.

Lemma insert_same_keys (m : gmap Z Game) k g g' :
  m !! k = Some g →
  size (<[k := g']> m) = size m ∧
  ∀ j, is_Some (<[k := g']> m !! j) ↔ is_Some (m !! j).
Proof.
  intros Hk. split.
  - by eapply map_size_insert_Some.
  - intros j. destruct (decide (k = j)) as [<-|Hne].
    + rewrite lookup_insert_eq, Hk. split; eauto.
    + by rewrite lookup_insert_ne.
Qed.

Lemma select_active_wf ord s :
  Session_wf s → Session_wf (select_active ord s).1.
Proof.
  intros (Hdom & Hid & Hact). unfold select_active.
  destruct (Active s) as [a|] eqn:Ha; simpl; [by split_and!; rewrite ?Ha|].
  destruct (first_ready ord (Replicas s)) as [[k g]|] eqn:Hf; simpl;
    [|by split_and!; rewrite ?Ha].
  apply first_ready_Some in Hf as (Hk & Hr & _).
  split_and!; try done. simpl. intros a' [= <-]. eauto.
Qed.

Lemma Session_wf_ext s s' :
  Replicas s' = Replicas s → Active s' = Active s →
  Session_wf s → Session_wf s'.
Proof.
  unfold Session_wf, replica_count. intros -> ->. done.
Qed.

(** A handler that leaves the replicas and the active pointer alone. *)
Ltac same_replicas s :=
  repeat match goal with
  | |- context [String.eqb (State s) ?y] => destruct (String.eqb (State s) y)
  end; simpl;
  repeat match goal with
  | |- context [match ?o with Some _ => _ | None => _ end] =>
      destruct o eqn:?
  end; try done;
  intros [= <- <-]; by apply (Session_wf_ext s).

Lemma dispatch_wf s evt inspect s' eff :
  Session_wf s → dispatch s evt inspect = Ok (s', eff) → Session_wf s'.
Proof.
  intros Hwf. pose proof Hwf as (Hdom & Hid & Hact).
  unfold dispatch, deref_Active.
  destruct (String.eqb (Typ evt) "cmd.reset").
  { destruct (Active s) as [a|]; [|done].
    destruct (Replicas s !! a) as [g|] eqn:Hg; [|done]. simpl.
    intros [= <- <-].
    destruct (insert_same_keys (Replicas s) a g (with_Ready false g) Hg)
      as [Hsize Hkeys].
    unfold Session_wf, replica_count. simpl. split_and!; [| |done].
    - intros k. rewrite Hkeys, Hsize. apply Hdom.
    - intros k g'. destruct (decide (a = k)) as [<-|Hne].
      + rewrite lookup_insert_eq. intros [= <-]. simpl. eauto.
      + rewrite lookup_insert_ne by done. eauto. }
  destruct (String.eqb (Typ evt) "cmd.player"); [same_replicas s|].
  destruct (String.eqb (Typ evt) "cmd.pearl"); [same_replicas s|].
  destruct (String.eqb (Typ evt) "generated").
  { destruct (Replicas s !! GameID evt) as [g|] eqn:Hg; [|done]. simpl.
    intros [= <- <-].
    set (g' := match inspect with
               | Some ip => with_Addr ip (with_Ready true g)
               | None => with_Ready true g
               end).
    assert (ID g' = ID g ∧ Ready g' = true) as [Hid' Hr'].
    { unfold g'. by destruct inspect. }
    destruct (insert_same_keys (Replicas s) (GameID evt) g g' Hg)
      as [Hsize Hkeys].
    unfold Session_wf, replica_count. simpl. split_and!.
    - intros k. rewrite Hkeys, Hsize. apply Hdom.
    - intros k g2. destruct (decide (GameID evt = k)) as [<-|Hne].
      + rewrite lookup_insert_eq. intros [= <-]. rewrite Hid'. eauto.
      + rewrite lookup_insert_ne by done. eauto.
    - intros a Ha. destruct (decide (GameID evt = a)) as [<-|Hne].
      + rewrite lookup_insert_eq. eauto.
      + rewrite lookup_insert_ne by done. eauto. }
  destruct (String.eqb (Typ evt) "login"); [same_replicas s|].
  destruct (String.eqb (Typ evt) "nether"); [same_replicas s|].
  destruct (String.eqb (Typ evt) "end"); [same_replicas s|].
  destruct (String.eqb (Typ evt) "credits"); [same_replicas s|].
  by intros [= <- <-].
Qed.

Lemma handle_event_wf s evt inspect s' eff :
  Session_wf s → handle_event s evt inspect = Ok (s', eff) → Session_wf s'.
Proof.
  intros Hwf. unfold handle_event.
  destruct (unknown_game s evt); [by intros [= <- <-]|].
  destruct (non_active s evt); [by intros [= <- <-]|].
  destruct (dispatch s evt inspect) as [[s2 eff2]|] eqn:Hd; [|done].
  intros [= <- <-]. by eapply dispatch_wf.
Qed.

(** Every turn of [Loop] keeps the session well-formed. *)
Lemma Loop_iter_wf it s s' eff :
  Session_wf s → Loop_iter it s = (Continue s', eff) → Session_wf s'.
Proof.
  intros Hwf. unfold Loop_iter.
  pose proof (select_active_wf (order it) s Hwf) as Hsel.
  destruct (select_active (order it) s) as [s1 eff1]. simpl in Hsel.
  destruct (wake it) as [saved|evt inspect]; [done|].
  destruct (handle_event s1 evt inspect) as [[s2 eff2]|] eqn:Hh; [|done].
  intros [= <- <-]. by eapply handle_event_wf.
Qed.

Lemma Loop_wf its s s' eff :
  Session_wf s → Loop its s = (Continue s', eff) → Session_wf s'.
Proof.
  revert s eff. induction its as [|it rest IH]; intros s eff Hwf; simpl.
  - by intros [= <- <-].
  - destruct (Loop_iter it s) as [[s1| |] eff1] eqn:Hit; try done.
    destruct (Loop rest s1) as [n eff2] eqn:Hrest.
    intros [= -> <-]. eapply IH; [|done]. by eapply Loop_iter_wf.
Qed.

(** ** Selection of the active replica *)

(** C1 (amended): when no replica is active and at least one replica is
    ready, the selection promotes exactly one replica: a ready one, the
    first ready replica in the order in which the [range] over the map
    visits them. Nothing else of the session changes, and the proxy is
    told the empty address and then the address of that replica. The
    promoted replica is the one with the lowest id among the ready ones
    when that order is ascending. *)
Theorem select_active_first_ready ord s :
  Active s = None → range_order (Replicas s) ord →
  (∃ k g, Replicas s !! k = Some g ∧ Ready g = true) →
  ∃ a g pre post,
    Replicas s !! a = Some g ∧ Ready g = true ∧
    ord = pre ++ a :: post ∧
    (∀ j g', j ∈ pre → Replicas s !! j = Some g' → Ready g' = false) ∧
    select_active ord s =
      (with_Active (Some a) s,
       [ProxyAddrSend "";
        LogPrintf "[core] switching to %s" [VString (Name g)];
        ProxyAddrSend (Addr g)]) ∧
    (StronglySorted Z.le ord → lowest_ready (Replicas s) a).
Proof.
  intros Hnil [Hnd Hkeys] (k & gk & Hk & Hrk).
  unfold select_active. rewrite Hnil.
  destruct (first_ready ord (Replicas s)) as [[a g]|] eqn:Hf.
  - destruct (first_ready_Some _ _ _ _ Hf) as (Ha & Hr & pre & post & -> & Hpre).
    exists a, g, pre, post. split_and!; try done.
    intros Hsorted. split; [eauto|].
    intros j gj Hj Hrj.
    assert (j ∈ pre ++ a :: post) as Hin by (apply Hkeys; eauto).
    apply elem_of_app in Hin as [Hin|Hin].
    { rewrite (Hpre j gj Hin Hj) in Hrj. done. }
    apply elem_of_cons in Hin as [->|Hin]; [lia|].
    apply StronglySorted_app_1_r, StronglySorted_cons in Hsorted as [Hall _].
    rewrite Forall_forall in Hall. by apply Hall.
  - assert (k ∈ ord) as Hin by (apply Hkeys; eauto).
    by rewrite (first_ready_None _ _ _ _ Hf Hin Hk) in Hrk.
Qed.

Lemma dispatch_replica_count s evt inspect s' eff :
  dispatch s evt inspect = Ok (s', eff) → replica_count s' = replica_count s.
Proof.
  unfold dispatch, deref_Active, replica_count.
  repeat match goal with
  | |- context [String.eqb ?x ?y] => destruct (String.eqb x y)
  end; simpl;
  repeat match goal with
  | |- context [match ?o with Some _ => _ | None => _ end] =>
      destruct o eqn:?
  end; try done; intros [= <- <-]; simpl; try done;
  f_equal; by eapply map_size_insert_Some.
Qed.

Lemma Loop_iter_replica_count it s s' eff :
  Loop_iter it s = (Continue s', eff) → replica_count s' = replica_count s.
Proof.
  intros (evt & inspect & eff' & _ & Hh)%Loop_iter_Continue.
  assert (replica_count (select_active (order it) s).1 = replica_count s)
    as <-.
  { unfold select_active. destruct (Active s); [done|].
    by destruct (first_ready _ _) as [[? ?]|]. }
  revert Hh. unfold handle_event.
  destruct (unknown_game _ evt); [by intros [= <- <-]|].
  destruct (non_active _ evt); [by intros [= <- <-]|].
  destruct (dispatch _ evt inspect) as [[s2 eff2]|] eqn:Hd; [|done].
  intros [= <- <-]. by eapply dispatch_replica_count.
Qed.

(** The number of replicas a running session holds is the one it was
    configured with. *)
Lemma replica_count_configured load image replicas its s0 s eff :
  NewSession load image replicas = Some s0 →
  Loop its s0 = (Continue s, eff) →
  Session_wf s ∧ replica_count s = Z.max 0 replicas.
Proof.
  intros Hnew Hrun.
  destruct (NewSession_wf _ _ _ _ Hnew) as (Hwf & Hcount & _).
  split; [by eapply Loop_wf|].
  rewrite <- Hcount. clear Hnew Hwf Hcount.
  revert s0 eff Hrun. induction its as [|it rest IH]; intros s0 eff; simpl.
  - by intros [= <- <-].
  - destruct (Loop_iter it s0) as [[s1| |] eff1] eqn:Hit; try done.
    destruct (Loop rest s1) as [n eff2] eqn:Hrest.
    intros [= -> <-]. rewrite (IH _ _ Hrest).
    by eapply Loop_iter_replica_count.
Qed.

(** ** The log parser *)

Lemma classify_first_match text :
  classify text = default "" (first_match rule_table text).
Proof.
  unfold classify, first_match, rule_table. simpl.
  repeat match goal with
  | |- context [Contains text ?p] => destruct (Contains text p)
  end; reflexivity.
Qed.

Lemma first_match_nonempty text typ :
  first_match rule_table text = Some typ → typ ≠ "".
Proof.
  unfold first_match, rule_table. simpl.
  repeat match goal with
  | |- context [Contains text ?p] => destruct (Contains text p)
  end; simpl; by intros [= <-].
Qed.

(** C3 (amended): a line yields at most one event, and none when it
    lacks the envelope, when its time of day does not parse, or when no
    rule matches. The type of the event is that of the first rule, in
    the order of [rule_table], whose phrase the message contains: reset
    command, time-set command, generation complete, player joined,
    nether entry, end entry, credits. *)
Theorem HandleLog_rule_table g now line :
  (HandleLog g now line).2 =
    match FindAllStringSubmatch1 logExpression line with
    | [[_; ts; _; text]] =>
        '(h, m, sec) ← Parse_clock ts;
        typ ← first_match rule_table text;
        Some {| GameID := ID g;
                Timestamp := Date (Year now) (Month now) (Day now) h m sec
                                  (Nanosecond now);
                Typ := typ; Payload := text |}
    | _ => None
    end.
Proof.
  unfold HandleLog.
  destruct (FindAllStringSubmatch1 logExpression line)
    as [|[|? [|ts [|? [|text [|? ?]]]]] [|? ?]]; try done.
  destruct (Parse_clock ts) as [[[h m] sec]|]; simpl; [|done].
  rewrite classify_first_match.
  destruct (first_match rule_table text) as [typ|] eqn:Hm; simpl.
  - rewrite bool_decide_eq_true_2; [done | by eapply first_match_nonempty].
  - done.
Qed.

(** ** The proxy *)

Lemma relays_serve_conn addr c' r c e :
  e ∈ serve_conn addr c' r → relays c e → c' = c ∧ addr ≠ "".
Proof.
  unfold serve_conn, relay_conn.
  destruct (String.eqb_spec addr "") as [->|Hne].
  { intros ->%list_elem_of_singleton. done. }
  intros Hin Hrel. split; [|done].
  destruct (dial_ok r), (copy_returned r); simpl in Hin;
    repeat (apply elem_of_cons in Hin as [->|Hin]); simpl in Hrel;
    try done; try (by apply elem_of_nil in Hin);
    destruct Hrel as [?|[?|[?|?]]]; congruence.
Qed.

Lemma relays_accept_loop accepts c e :
  e ∈ accept_loop accepts → relays c e →
  ∃ addr r, AcceptConn addr c r ∈ accepts ∧ addr ≠ "".
Proof.
  induction accepts as [|[|addr c' r] rest IH]; simpl.
  - by intros ?%elem_of_nil.
  - by intros ->%list_elem_of_singleton.
  - intros [Hin|Hin]%elem_of_app Hrel.
    + destruct (relays_serve_conn _ _ _ _ _ Hin Hrel) as [-> Hne].
      exists addr, r. split; [by left | done].
    + destruct (IH Hin Hrel) as (addr' & r' & Hin' & Hne).
      exists addr', r'. split; [by right | done].
Qed.

(** C8: a connection accepted while [proxyAddr] is empty is closed at
    once and the accept loop goes on with the next connection; nothing
    is dialled and nothing is copied for it in either direction, neither
    at once nor later in the loop (every accepted connection being a new
    one). *)
Theorem empty_target_closes c r :
  serve_conn "" c r = [ConnClose (Client c)] ∧
  (∀ rest, accept_loop (AcceptConn "" c r :: rest)
           = ConnClose (Client c) :: accept_loop rest) ∧
  (∀ pre post,
     (∀ addr r', AcceptConn addr c r' ∉ pre ++ post) →
     ∀ e, e ∈ accept_loop (pre ++ AcceptConn "" c r :: post) →
          ¬ relays c e).
Proof.
  split_and!; try done.
  intros pre post Hfresh e Hin Hrel.
  destruct (relays_accept_loop _ _ _ Hin Hrel) as (addr & r' & Hmem & Hne).
  apply elem_of_app in Hmem as [Hmem|Hmem].
  - apply (Hfresh addr r'), elem_of_app. by left.
  - apply elem_of_cons in Hmem as [[= -> _]|Hmem]; [done|].
    apply (Hfresh addr r'), elem_of_app. by right.
Qed.

End SessionLoop.

(** ** The theorems at concrete sessions

    The runs below use [go_json_Marshal] and [go_Sub_String]. *)

Abbreviation go_handle_event := (handle_event go_json_Marshal go_Sub_String).
Abbreviation go_Loop := (Loop go_json_Marshal go_Sub_String).
Abbreviation go_Loop_states := (Loop_states go_json_Marshal go_Sub_String).

(** C1 as worded does not hold: three replicas report, replica 0 is
    promoted and later reset; replicas 1 and 2 are then ready and no
    replica is active. A [range] that visits the map in the order 2, 1,
    0 promotes replica 2, while the lowest ready id is 1. *)
Lemma lowest_id_not_promoted :
  ∃ s0 s eff,
    NewSession NotExist "img" 3 = Some s0 ∧
    go_Loop three_replica_turns s0 = (Continue s, eff) ∧
    all_reported 3 three_replica_turns ∧
    Forall (λ it, range_order (Replicas s0) (order it)) three_replica_turns ∧
    Active s = None ∧
    range_order (Replicas s) [2; 1; 0] ∧
    Active (select_active [2; 1; 0] s).1 = Some 2 ∧
    lowest_ready (Replicas s) 1 ∧
    ¬ lowest_ready (Replicas s) 2.
Proof.
  eexists _, _, _. split; [reflexivity|].
  split; [vm_compute; reflexivity|].
  split; [apply all_reportedb_spec; vm_compute; reflexivity|].
  split.
  { repeat (constructor; [apply range_orderb_spec; vm_compute; reflexivity|]).
    constructor. }
  split; [reflexivity|].
  split; [apply range_orderb_spec; vm_compute; reflexivity|].
  split; [reflexivity|].
  split; [apply lowest_readyb_spec; vm_compute; reflexivity|].
  intros [_ Hlow].
  specialize (Hlow 1 (sample_game 1 "172.17.0.3" true)).
  assert (2 ≤ 1); [|lia]. by apply Hlow.
Qed.

(** The selection at [sample_idle_session], visited in the order 2, 1, 0. *)
Lemma select_active_first_ready_witness :
  ∃ a g pre post,
    Replicas sample_idle_session !! a = Some g ∧ Ready g = true ∧
    [2; 1; 0] = pre ++ a :: post ∧
    (∀ j g', j ∈ pre → Replicas sample_idle_session !! j = Some g' →
             Ready g' = false) ∧
    select_active [2; 1; 0] sample_idle_session =
      (with_Active (Some a) sample_idle_session,
       [ProxyAddrSend "";
        LogPrintf "[core] switching to %s" [VString (Name g)];
        ProxyAddrSend (Addr g)]) ∧
    (StronglySorted Z.le [2; 1; 0] →
     lowest_ready (Replicas sample_idle_session) a).
Proof.
  apply (select_active_first_ready [2; 1; 0] sample_idle_session).
  - reflexivity.
  - apply range_orderb_spec. vm_compute. reflexivity.
  - exists 1, (sample_game 1 "172.17.0.3" true). split; reflexivity.
Defined.

(** The scenario of the specification: the replica reports and is
    promoted, a login starts attempt 0, the nether is entered a minute
    later, and a reset ends the attempt. *)
Example scenario_run :
  ∃ s eff,
    go_Loop scenario_turns scenario_start = (Continue s, eff) ∧
    State s = "" ∧ Attempt (Data s) = 1 ∧ Active s = None ∧
    ContainerAttach "mcspeedrun_0"
      ("/tellraw @a " +:+
       go_json_Marshal [{| Text := "Nether: [1m0s]"; Color := "green" |}]
       +:+ nl) ∈ eff ∧
    ContainerKill "mcspeedrun_0" "KILL" ∈ eff.
Proof.
  eexists _, _. split; [vm_compute; reflexivity|].
  split_and!; try reflexivity.
  - do 12 apply list_elem_of_further. apply list_elem_of_here.
  - do 14 apply list_elem_of_further. apply list_elem_of_here.
Qed.

Example scenario_start_NewSession :
  NewSession NotExist "img" 1 = Some scenario_start.
Proof. vm_compute. reflexivity. Qed.

Example Duration_String_samples :
  map Duration_String [0; 1; 1100; 2200000; 1500000000; 60000000000;
                       18245001000000; int_max] =
    ["0s"; "1ns"; "1.1" +:+ String "194" (String "181" "s"); "2.2ms"; "1.5s";
     "1m0s"; "5h4m5.001s"; "2562047h47m16.854775807s"].
Proof. vm_compute. reflexivity. Qed.

Example HandleLog_samples :
  map (λ line, Typ <$> (HandleLog (sample_game 0 "" false) (sample_time 0)
                                  line).2)
    ["[12:34:56] [Server thread/INFO]: <Steve> rr";
     "[12:34:56] [Server thread/INFO]: Done (9.1s)! " +:+ help_phrase;
     "[12:34:56] [Server thread/INFO]: Steve joined the game";
     "[12:34:56] [Server thread/INFO]: Steve has made the advancement [We Need to Go Deeper]";
     "[12:34:56] [Server thread/INFO]: Preparing spawn area: 83%";
     "[12:34:66] [Server thread/INFO]: Steve joined the game";
     "Steve joined the game"] =
    [Some "cmd.reset"; Some "generated"; Some "login"; Some "nether";
     None; None; None].
Proof. vm_compute. reflexivity. Qed.

(** The login turn of the scenario: from idle to overworld. *)
Lemma phase_moves_witness :
  ∃ it evt inspect,
    scenario_turns !! 1%nat = Some it ∧ wake it = Recv evt inspect ∧
    phase_step (State (scenario_state None "" Time_zero)) (Typ evt)
               (State (scenario_state (Some 0) "overworld" (sample_time 34))) ∧
    (State (scenario_state (Some 0) "overworld" (sample_time 34)) = "" →
     State (scenario_state None "" Time_zero) ≠ "" → Typ evt = "cmd.reset") ∧
    (∀ req, advances_from (Typ evt) = Some req →
            State (scenario_state None "" Time_zero) ≠ req →
            State (scenario_state (Some 0) "overworld" (sample_time 34))
            = State (scenario_state None "" Time_zero)) ∧
    (∀ req, advances_from (Typ evt) = Some req →
            State (scenario_state None "" Time_zero) = req →
            validated
              (select_active (order it) (scenario_state None "" Time_zero)).1
              evt →
            State (scenario_state (Some 0) "overworld" (sample_time 34))
            = advances_to (Typ evt)).
Proof.
  apply (phase_moves go_json_Marshal go_Sub_String scenario_turns
           scenario_start 1
           (scenario_state None "" Time_zero)
           (scenario_state (Some 0) "overworld" (sample_time 34)));
    vm_compute; reflexivity.
Defined.

(** C3 as worded does not hold: the table of the claim has no rule
    for a message that only says the time was set, so no event should
    come of it, and it gives ["login"] to a message that holds both that
    phrase and the player-joined phrase; [HandleLog] sends a
    ["cmd.retime"] event for both lines. *)
Lemma retime_rule_not_in_spec_table :
  first_match spec_rule_table "[Steve: Set the time to 0]" = None ∧
  Typ <$> (HandleLog (sample_game 0 "" false) (sample_time 0) retime_line).2
    = Some "cmd.retime" ∧
  first_match spec_rule_table "[joined the game: Set the time to 0]"
    = Some "login" ∧
  Typ <$> (HandleLog (sample_game 0 "" false) (sample_time 0)
                     retime_login_line).2
    = Some "cmd.retime".
Proof. vm_compute. done. Qed.

(** C4 as worded does not hold: a session started from a state file
    that holds the largest [int] as attempt number reaches the overworld
    phase; the reset then makes the attempt counter the smallest [int],
    not one more. *)
Lemma attempt_counter_wraps :
  ∃ s0 s eff s' eff',
    NewSession (Loaded {| Attempt := int_max |}) "img" 1 = Some s0 ∧
    go_Loop [sample_turn [0] "generated" 0 33; sample_turn [0] "login" 0 34] s0
      = (Continue s, eff) ∧
    validated s (sample_event "cmd.reset" 0 40) ∧
    go_handle_event s (sample_event "cmd.reset" 0 40) None = Ok (s', eff') ∧
    Attempt (Data s) = int_max ∧
    Attempt (Data s') = int_min ∧
    Attempt (Data s') ≠ Attempt (Data s) + 1.
Proof.
  eexists _, _, _, _, _. split; [reflexivity|].
  split; [vm_compute; reflexivity|].
  split; [by vm_compute|].
  split; [vm_compute; reflexivity|].
  by vm_compute.
Qed.

(** A reset in the nether phase of attempt 3. *)
Lemma reset_event_witness :
  ∃ a g s',
    Active (sample_session 3 "nether") = Some a ∧
    Replicas (sample_session 3 "nether") !! a = Some g ∧
    go_handle_event (sample_session 3 "nether")
                    (sample_event "cmd.reset" 0 40) None =
      Ok (s', [received (sample_event "cmd.reset" 0 40);
               ContainerKill (Name g) "KILL"]) ∧
    s' = {| Data := {| Attempt := int_wrap (3 + 1) |};
            Replicas := <[a := with_Ready false g]>
                          (Replicas (sample_session 3 "nether"));
            SImage := "img"; Active := None; State := "";
            TimeStart := Time_zero |} ∧
    State s' = "" ∧ Active s' = None ∧
    (int_min ≤ 3 < int_max → Attempt (Data s') = 3 + 1) ∧
    (3 = int_max → Attempt (Data s') = int_min).
Proof.
  apply (reset_event go_json_Marshal go_Sub_String (sample_session 3 "nether")
           (sample_event "cmd.reset" 0 40) None).
  - by vm_compute.
  - reflexivity.
Defined.

(** An event of game 2 in a session of two replicas. *)
Lemma unknown_game_dropped_witness :
  go_handle_event (sample_session 3 "") (sample_event "login" 2 40) None =
    Ok (sample_session 3 "",
        [received (sample_event "login" 2 40);
         LogPrintf "[core] unknown game ID %d" [VInt 2]]).
Proof.
  apply (unknown_game_dropped go_json_Marshal go_Sub_String
           (sample_session 3 "") (sample_event "login" 2 40) None).
  by vm_compute.
Defined.

(** A login of replica 1 while replica 0 is active, and the report of
    replica 1. *)
Lemma non_active_dropped_witness :
  (∃ eff, go_handle_event (sample_session 3 "") (sample_event "login" 1 40) None
          = Ok (sample_session 3 "", eff) ∧ Forall is_log eff) ∧
  validated (sample_session 3 "") (sample_event "generated" 1 40) ∧
  go_handle_event (sample_session 3 "") (sample_event "generated" 1 40)
                  (Some "172.17.0.3") =
    Ok (with_Replicas
          (<[1 := sample_game 1 "172.17.0.3" true]>
             (Replicas (sample_session 3 ""))) (sample_session 3 ""),
        [received (sample_event "generated" 1 40);
         ContainerInspect "mcspeedrun_1";
         LogPrintf "[core] server %d is online" [VInt 1]]).
Proof.
  split.
  - apply (non_active_dropped go_json_Marshal go_Sub_String
             (sample_session 3 "") (sample_event "login" 1 40) None).
    + by vm_compute.
    + intros g [= <-]. by vm_compute.
  - refine (proj2 (non_active_dropped go_json_Marshal go_Sub_String
                     (sample_session 3 "") (sample_event "generated" 1 40)
                     (Some "172.17.0.3"))
                  eq_refl _ (sample_game 1 "" false) eq_refl).
    apply Session_wfb_spec. vm_compute. reflexivity.
Defined.

(** The login of the active replica in the idle phase of attempt 3. *)
Lemma login_event_witness :
  ∃ a g,
    Active (sample_session 3 "") = Some a ∧
    Replicas (sample_session 3 "") !! a = Some g ∧
    go_handle_event (sample_session 3 "") (sample_event "login" 0 40) None =
      Ok ({| Data := {| Attempt := 3 |};
             Replicas := Replicas (sample_session 3 "");
             SImage := "img"; Active := Some 0; State := "overworld";
             TimeStart := sample_time 40 |},
          [received (sample_event "login" 0 40);
           ContainerAttach (Name g)
             ("/tellraw @a " +:+
              go_json_Marshal [{| Text := "attempt #3"; Color := "green" |}]
              +:+ nl);
           ContainerAttach (Name g) ("/time set 0" +:+ nl);
           ContainerAttach (Name g) ("/save-off" +:+ nl)]).
Proof.
  apply (login_event go_json_Marshal go_Sub_String (sample_session 3 "")
           (sample_event "login" 0 40) None).
  - by vm_compute.
  - reflexivity.
Defined.

(** A pearl throw of the active replica. *)
Lemma dispatch_active_non_nil_witness :
  ∃ a g,
    Active (sample_session 3 "overworld") = Some a ∧
    Replicas (sample_session 3 "overworld") !! a = Some g ∧
    ID g = 0 ∧
    ∃ r, dispatch go_json_Marshal go_Sub_String (sample_session 3 "overworld")
                  (sample_event "cmd.pearl" 0 40) None = Ok r ∧
         go_handle_event (sample_session 3 "overworld")
                         (sample_event "cmd.pearl" 0 40) None
           = Ok (r.1, received (sample_event "cmd.pearl" 0 40) :: r.2).
Proof.
  apply (dispatch_active_non_nil go_json_Marshal go_Sub_String
           (sample_session 3 "overworld") (sample_event "cmd.pearl" 0 40) None).
  - by vm_compute.
  - done.
Defined.

(** A connection accepted with no target between two relayed ones. *)
Lemma empty_target_closes_witness :
  Forall (λ e, ¬ relays (sample_conn 2) e)
    (accept_loop
       ([AcceptConn "172.17.0.2" (sample_conn 1) sample_relay] ++
        AcceptConn "" (sample_conn 2) sample_relay ::
        [AcceptConn "172.17.0.2" (sample_conn 3) sample_relay])).
Proof.
  apply Forall_forall.
  apply (proj2 (proj2 (empty_target_closes (sample_conn 2) sample_relay))).
  intros addr r' Hin. simpl in Hin.
  repeat (apply elem_of_cons in Hin as [Hin|Hin]; [discriminate Hin|]).
  by apply elem_of_nil in Hin.
Defined.

(** * Further properties *)

(** ** Strings *)

Lemma append_cons c (s t : string) : String c s +:+ t = String c (s +:+ t).
Proof. reflexivity. Qed.

Lemma append_nil_l (s : string) : "" +:+ s = s.
Proof. reflexivity. Qed.

Lemma append_nil_r (s : string) : s +:+ "" = s.
Proof.
  induction s as [|c s IH]; [done|]. by rewrite append_cons, IH.
Qed.

Lemma append_assoc (a b c : string) : (a +:+ b) +:+ c = a +:+ (b +:+ c).
Proof.
  induction a as [|x a IH]; [done|]. by rewrite !append_cons, IH.
Qed.

Lemma length_append (a b : string) :
  String.length (a +:+ b) = (String.length a + String.length b)%nat.
Proof.
  induction a as [|x a IH]; [done|]. rewrite append_cons. simpl. by rewrite IH.
Qed.

Lemma substring_append_l (w rest : string) :
  substring 0 (String.length (w +:+ rest) - String.length rest) (w +:+ rest) = w.
Proof.
  rewrite length_append.
  replace (String.length w + String.length rest - String.length rest)%nat
    with (String.length w) by lia.
  induction w as [|c w IH].
  - rewrite append_nil_l. by destruct rest.
  - rewrite append_cons. simpl. by rewrite IH.
Qed.

Lemma plus_more_sound {R} cls s (k : string → option R) res :
  plus_more cls s k = Some res →
  ∃ w rest, s = w +:+ rest ∧ all_in cls w = true ∧ k rest = Some res.
Proof.
  induction s as [|c s IH]; simpl.
  - intros Hk. by exists "", "".
  - destruct (cls c) eqn:Hc.
    + destruct (plus_more cls s k) as [r|] eqn:Hp.
      * intros [= ->]. destruct (IH eq_refl) as (w & rest & -> & Hw & Hk).
        exists (String c w), rest. simpl. by rewrite Hc, Hw.
      * intros Hk. by exists "", (String c s).
    + intros Hk. by exists "", (String c s).
Qed.

Lemma plus_more_all {R} cls w rest (k : string → option R) res :
  all_in cls w = true → stops cls rest = true → k rest = Some res →
  plus_more cls (w +:+ rest) k = Some res.
Proof.
  intros Hw Hrest Hk. induction w as [|c w IH].
  - rewrite append_nil_l. destruct rest as [|c rest]; simpl in *; [done|].
    apply negb_true_iff in Hrest. by rewrite Hrest.
  - rewrite append_cons. simpl in *.
    apply andb_true_iff in Hw as [-> Hw]. by rewrite IH.
Qed.

Lemma rmatch_sound r start s caps k res :
  rmatch r start s caps k = Some res →
  ∃ w rest st cs,
    s = w +:+ rest ∧ denotes r start w rest st cs ∧
    k st rest (cs ++ caps) = Some res.
Proof.
  revert start s caps k res.
  induction r as [| |c|cls|r1 IH1 r2 IH2|r1 IH1]; intros start s caps k res;
    simpl.
  - destruct start; [|done]. intros Hk. by exists "", s, true, [].
  - destruct s; [|done]. intros Hk. by exists "", "", start, [].
  - destruct s as [|c' s]; [done|].
    destruct (Ascii.eqb_spec c c') as [<-|]; [|done].
    intros Hk. by exists (String c ""), s, false, [].
  - destruct s as [|c s]; [done|]. destruct (cls c) eqn:Hc; [|done].
    intros (w & rest & -> & Hw & Hk)%plus_more_sound.
    exists (String c w), rest, false, []. split_and!; try done.
    simpl. by rewrite Hc.
  - intros (w1 & rest1 & st1 & cs1 & -> & H1 & Hk1)%IH1.
    apply IH2 in Hk1 as (w2 & rest & st & cs2 & -> & H2 & Hk).
    exists (w1 +:+ w2), rest, st, (cs2 ++ cs1).
    rewrite append_assoc, <- (assoc_L (++)). split_and!; try done.
    by exists w1, w2, st1, cs1, cs2.
  - intros (w & rest & st & cs1 & -> & H1 & Hk)%IH1.
    rewrite substring_append_l in Hk.
    exists w, rest, st, (w :: cs1). split_and!; try done.
    by exists cs1.
Qed.

Lemma dmatch_Begin rest : dmatch BeginText true "" rest true [].
Proof. by intros caps k res Hk. Qed.

Lemma dmatch_End start : dmatch EndText start "" "" start [].
Proof. by intros caps k res Hk. Qed.

Lemma dmatch_Lit c start rest : dmatch (Lit c) start (String c "") rest false [].
Proof.
  intros caps k res Hk. rewrite append_cons, append_nil_l. simpl.
  by rewrite Ascii.eqb_refl.
Qed.

Lemma dmatch_Plus cls start w rest :
  some_in cls w = true → stops cls rest = true →
  dmatch (Plus cls) start w rest false [].
Proof.
  intros Hw Hrest caps k res Hk. destruct w as [|c w]; [done|].
  rewrite append_cons. simpl in *.
  apply andb_true_iff in Hw as [-> Hw]. by apply plus_more_all.
Qed.

Lemma dmatch_Cat r1 r2 start w1 w2 rest st1 st cs1 cs2 :
  dmatch r1 start w1 (w2 +:+ rest) st1 cs1 →
  dmatch r2 st1 w2 rest st cs2 →
  dmatch (Cat r1 r2) start (w1 +:+ w2) rest st (cs2 ++ cs1).
Proof.
  intros H1 H2 caps k res Hk. rewrite append_assoc. simpl.
  apply H1, H2. by rewrite (assoc_L (++)).
Qed.

Lemma dmatch_Group r start w rest st cs :
  dmatch r start w rest st cs → dmatch (Group r) start w rest st (w :: cs).
Proof.
  intros H caps k res Hk. simpl. apply H.
  by rewrite substring_append_l.
Qed.

Lemma find_from_eq r start s :
  find_from r start s =
    match match_here r start s with
    | Some m => Some m
    | None =>
        match s with
        | String _ s' => find_from r false s'
        | EmptyString => None
        end
    end.
Proof. by destruct s. Qed.

Lemma find_from_unanchored s : find_from logExpression false s = None.
Proof.
  induction s as [|c s IH]; rewrite find_from_eq; [done|].
  by rewrite IH.
Qed.

Lemma FindAllStringSubmatch1_here line :
  FindAllStringSubmatch1 logExpression line =
    match match_here logExpression true line with
    | Some m => [m]
    | None => []
    end.
Proof.
  unfold FindAllStringSubmatch1. rewrite find_from_eq.
  destruct (match_here logExpression true line); [done|].
  destruct line; [done|]. by rewrite find_from_unanchored.
Qed.

Lemma logExpression_sound line m :
  match_here logExpression true line = Some m →
  ∃ ts thread text,
    m = [line; ts; thread; text] ∧ line = envelope ts thread text ∧
    clock_shape ts ∧ some_in class_thread thread = true ∧
    some_in class_dot text = true.
Proof.
  unfold match_here.
  intros (w & rest & st & cs & Hline & Hden & Hm)%rmatch_sound.
  unfold logExpression in Hden. simpl in Hden.
  repeat match goal with
  | H : ∃ _, _ |- _ => destruct H as [? H]
  | H : _ ∧ _ |- _ => destruct H as [? ?]
  end; subst.
  rewrite substring_append_l in Hm. simpl in Hm. injection Hm as <-.
  match goal with
  | H1 : some_in class_d ?d1 = true, H2 : some_in class_d ?d2 = true,
    H3 : some_in class_d ?d3 = true, H4 : some_in _ ?th = true,
    H5 : some_in class_dot ?tx = true |- _ =>
      exists (d1 +:+ ":" +:+ d2 +:+ ":" +:+ d3), th, tx
  end.
  rewrite !append_nil_r. split_and!; try done.
  by eexists _, _, _.
Qed.

Ltac dmatch_step :=
  first
    [ apply dmatch_Begin | apply dmatch_End | apply dmatch_Lit
    | apply dmatch_Group
    | apply dmatch_Plus; [assumption | reflexivity]
    | eapply dmatch_Cat ].

Lemma logExpression_complete ts thread text :
  clock_shape ts → some_in class_thread thread = true →
  some_in class_dot text = true →
  match_here logExpression true (envelope ts thread text)
    = Some [envelope ts thread text; ts; thread; text].
Proof.
  intros (d1 & d2 & d3 & -> & H1 & H2 & H3) Hth Htx.
  assert (∃ st cs,
    dmatch logExpression true
      ("" +:+ "[" +:+ (d1 +:+ ":" +:+ d2 +:+ ":" +:+ d3) +:+
       "]" +:+ " " +:+ "[" +:+ thread +:+ "]" +:+ ":" +:+ " " +:+ text +:+ "")
      "" st cs ∧
    rev (cs ++ []) = [d1 +:+ ":" +:+ d2 +:+ ":" +:+ d3; thread; text])
    as (st & cs & Hd & Hcs).
  { eexists _, _. split.
    - unfold logExpression. simpl Lits. repeat dmatch_step.
    - reflexivity. }
  unfold match_here.
  replace (envelope (d1 +:+ ":" +:+ d2 +:+ ":" +:+ d3) thread text)
    with (("" +:+ "[" +:+ (d1 +:+ ":" +:+ d2 +:+ ":" +:+ d3) +:+
           "]" +:+ " " +:+ "[" +:+ thread +:+ "]" +:+ ":" +:+ " " +:+
           text +:+ "") +:+ "")
    by (rewrite !append_nil_r; reflexivity).
  apply Hd. by rewrite substring_append_l, Hcs, !append_nil_r.
Qed.

(** What [logExpression] accepts: [FindAllStringSubmatch] yields a match
    exactly for the lines of the shape [[ts] [thread]: text], with [ts]
    three runs of digits joined by colons, [thread] a run of blanks, word
    bytes, [/] and [-], and [text] a non-empty rest without a newline;
    the match is the line followed by these three parts. *)
Theorem logExpression_matches line m :
  FindAllStringSubmatch1 logExpression line = [m] ↔
  ∃ ts thread text,
    m = [line; ts; thread; text] ∧ line = envelope ts thread text ∧
    clock_shape ts ∧ some_in class_thread thread = true ∧
    some_in class_dot text = true.
Proof.
  rewrite FindAllStringSubmatch1_here. split.
  - destruct (match_here logExpression true line) as [m'|] eqn:Hm; [|done].
    intros [= <-]. by apply logExpression_sound.
  - intros (ts & thread & text & -> & -> & Hts & Hth & Htx).
    by rewrite logExpression_complete.
Qed.

(** ** The events of [HandleLog] *)

Lemma digit_val_range c : class_d c = true → 0 ≤ digit_val c ≤ 9.
Proof.
  unfold class_d, ascii_in, digit_val.
  intros [H1 H2]%andb_true_iff.
  apply Nat.leb_le in H1, H2. lia.
Qed.

Lemma getnum_range s fixed n rest :
  getnum s fixed = Some (n, rest) → 0 ≤ n ≤ 99.
Proof.
  unfold getnum. destruct s as [|c0 [|c1 s]]; [done| |].
  - destruct (class_d c0) eqn:H0; [|done]. destruct fixed; [done|].
    intros [= <- <-]. apply digit_val_range in H0. lia.
  - destruct (class_d c0) eqn:H0; [|done].
    apply digit_val_range in H0.
    destruct (class_d c1) eqn:H1.
    + apply digit_val_range in H1. intros [= <- <-]. lia.
    + destruct fixed; [done|]. intros [= <- <-]. lia.
Qed.

Lemma Parse_clock_range ts h m sec :
  Parse_clock ts = Some (h, m, sec) →
  0 ≤ h < 24 ∧ 0 ≤ m < 60 ∧ 0 ≤ sec < 60.
Proof.
  unfold Parse_clock.
  destruct (getnum ts false) as [[h' v1]|] eqn:Hh; simpl; [|done].
  destruct (skip_colon v1) as [v2|]; simpl; [|done].
  destruct (getnum v2 true) as [[m' v3]|] eqn:Hm; simpl; [|done].
  destruct (skip_colon v3) as [v4|]; simpl; [|done].
  destruct (getnum v4 true) as [[s' v5]|] eqn:Hs; simpl; [|done].
  destruct (_ && _) eqn:Hb; [|done]. intros [= <- <- <-].
  apply getnum_range in Hh, Hm, Hs.
  repeat (apply andb_true_iff in Hb as [Hb ?]).
  repeat match goal with H : (_ <? _) = true |- _ => apply Z.ltb_lt in H end.
  lia.
Qed.

Lemma first_match_types text typ :
  first_match rule_table text = Some typ → typ ∈ parser_types.
Proof.
  unfold first_match, rule_table, parser_types. simpl.
  repeat match goal with
  | |- context [Contains text ?p] => destruct (Contains text p)
  end; simpl; intros [= <-];
    by apply (bool_decide_unpack _).
Qed.

Lemma all_in_dot_no_newline text :
  all_in class_dot text = true → Contains text nl = false.
Proof.
  induction text as [|c text IH]; [done|].
  intros [Hc Ht]%andb_true_iff.
  change (Contains (String c text) nl)
    with (String.prefix nl (String c text) || Contains text nl).
  rewrite (IH Ht), orb_false_r. unfold nl. cbn [String.prefix].
  by destruct (ascii_dec "010" c) as [<-|].
Qed.

Lemma HandleLog_sound g now line evt :
  (HandleLog g now line).2 = Some evt →
  ∃ ts thread h m sec,
    line = envelope ts thread (Payload evt) ∧
    clock_shape ts ∧ some_in class_thread thread = true ∧
    some_in class_dot (Payload evt) = true ∧
    Parse_clock ts = Some (h, m, sec) ∧
    first_match rule_table (Payload evt) = Some (Typ evt) ∧
    GameID evt = ID g ∧
    Timestamp evt = Date (Year now) (Month now) (Day now) h m sec
                         (Nanosecond now).
Proof.
  unfold HandleLog. rewrite FindAllStringSubmatch1_here.
  destruct (match_here logExpression true line) as [mt|] eqn:Hre; [|done].
  apply logExpression_sound in Hre
    as (ts & thread & text & -> & -> & Hts & Hth & Htx).
  destruct (Parse_clock ts) as [[[h m] sec]|] eqn:Hp; [|done].
  rewrite classify_first_match.
  destruct (first_match rule_table text) as [typ|] eqn:Hm; simpl; [|done].
  rewrite bool_decide_eq_true_2 by (by eapply first_match_nonempty).
  simpl. intros [= <-]. simpl. by exists ts, thread, h, m, sec.
Qed.

Lemma HandleLog_complete g now ts thread text h m sec typ :
  clock_shape ts → some_in class_thread thread = true →
  some_in class_dot text = true →
  Parse_clock ts = Some (h, m, sec) →
  first_match rule_table text = Some typ →
  (HandleLog g now (envelope ts thread text)).2 =
    Some {| GameID := ID g;
            Timestamp := Date (Year now) (Month now) (Day now) h m sec
                              (Nanosecond now);
            Typ := typ; Payload := text |}.
Proof.
  intros Hts Hth Htx Hp Hm. unfold HandleLog.
  rewrite FindAllStringSubmatch1_here, logExpression_complete by done.
  rewrite Hp, classify_first_match, Hm. simpl.
  by rewrite bool_decide_eq_true_2 by (by eapply first_match_nonempty).
Qed.

(** [HandleLog] sends an event exactly for a line in the envelope whose
    time of day parses and whose message contains one of the phrases of
    the rule table; the event carries the id of the replica, the message
    as payload, the type of the first rule that matches, and the time of
    day of the line on the date (and with the nanoseconds) of [now]. *)
Theorem HandleLog_event g now line evt :
  (HandleLog g now line).2 = Some evt ↔
  ∃ ts thread h m sec,
    line = envelope ts thread (Payload evt) ∧
    clock_shape ts ∧ some_in class_thread thread = true ∧
    some_in class_dot (Payload evt) = true ∧
    Parse_clock ts = Some (h, m, sec) ∧
    first_match rule_table (Payload evt) = Some (Typ evt) ∧
    GameID evt = ID g ∧
    Timestamp evt = Date (Year now) (Month now) (Day now) h m sec
                         (Nanosecond now).
Proof.
  split; [apply HandleLog_sound|].
  intros (ts & thread & h & m & sec & -> & Hts & Hth & Htx & Hp & Hm & Hid
          & Ht).
  rewrite (HandleLog_complete g now ts thread _ h m sec (Typ evt)) by done.
  f_equal. destruct evt; simpl in *. by subst.
Qed.

(** Every event [HandleLog] sends comes from its own replica, has one of
    the seven types of the rule table (never ["cmd.player"] nor
    ["cmd.pearl"]), a non-empty payload without a newline that ends the
    line, and a timestamp on the date of [now] with a time of day within
    range. *)
Theorem HandleLog_event_fields g now line evt :
  (HandleLog g now line).2 = Some evt →
  GameID evt = ID g ∧
  Typ evt ∈ parser_types ∧
  Typ evt ≠ "cmd.player" ∧ Typ evt ≠ "cmd.pearl" ∧
  (∃ head, line = "[" +:+ head +:+ "]: " +:+ Payload evt) ∧
  Payload evt ≠ "" ∧ Contains (Payload evt) nl = false ∧
  Year (Timestamp evt) = Year now ∧ Month (Timestamp evt) = Month now ∧
  Day (Timestamp evt) = Day now ∧
  Nanosecond (Timestamp evt) = Nanosecond now ∧
  0 ≤ Hour (Timestamp evt) < 24 ∧ 0 ≤ Minute (Timestamp evt) < 60 ∧
  0 ≤ Second (Timestamp evt) < 60.
Proof.
  intros (ts & thread & h & m & sec & Hline & _ & _ & Htx & Hp & Hm & Hid
          & Ht)%HandleLog_sound.
  apply Parse_clock_range in Hp. rewrite Ht. simpl.
  pose proof (first_match_types _ _ Hm) as Hty.
  split_and!; try done; try lia.
  - intros Heq. rewrite Heq in Hty. revert Hty.
    by apply (bool_decide_unpack ("cmd.player" ∉ parser_types)).
  - intros Heq. rewrite Heq in Hty. revert Hty.
    by apply (bool_decide_unpack ("cmd.pearl" ∉ parser_types)).
  - exists (ts +:+ "] [" +:+ thread). rewrite Hline. unfold envelope.
    by rewrite !append_assoc.
  - intros Heq. by rewrite Heq in Htx.
  - apply all_in_dot_no_newline. by destruct (Payload evt).
Qed.

(** ** More on the session loop *)

Section SessionLoopMore.

Variable json_Marshal : list Message → string.
Variable Sub_String : Time → Time → string.

Ltac quiet_effects :=
  unfold Say, Command, HandleThrow, Refresh; simpl;
  repeat (apply Forall_cons; split; [exact I|]); apply Forall_nil; done.

Lemma handle_event_step s evt inspect s' eff :
  handle_event json_Marshal Sub_String s evt inspect = Ok (s', eff) →
  event_step s evt inspect s' eff.
Proof.
  unfold handle_event.
  destruct (unknown_game s evt) eqn:Hu;
    [intros [= <- <-]; constructor; quiet_effects|].
  destruct (non_active s evt) eqn:Hn;
    [intros [= <- <-]; constructor; quiet_effects|].
  destruct (dispatch _ _ s evt inspect) as [[s2 eff2]|] eqn:Hd; [|done].
  intros [= <- <-]. revert Hd. unfold dispatch.
  destruct (String.eqb_spec (Typ evt) "generated") as [Hgen|Hgen].
  { rewrite Hgen. simpl.
    destruct (Replicas s !! GameID evt) as [g|] eqn:Hg; [|done].
    intros [= <- <-]. apply step_generated; [done..|quiet_effects]. }
  destruct (validated_active s evt (conj Hu Hn) Hgen)
    as (a & g & Ha & Hg & Hid).
  repeat match goal with
  | |- context [deref_Active s ?k] => rewrite (deref_Active_Some s a g k Ha Hg)
  end.
  destruct (String.eqb_spec (Typ evt) "cmd.reset") as [Hty|_].
  { intros [= <- <-]. by eapply step_reset. }
  destruct (String.eqb (Typ evt) "cmd.player");
    [intros [= <- <-]; constructor; quiet_effects|].
  destruct (String.eqb (Typ evt) "cmd.pearl");
    [intros [= <- <-]; constructor; quiet_effects|].
  destruct (String.eqb_spec (Typ evt) "login") as [Hty|_].
  { destruct (String.eqb_spec (State s) "") as [Hst|_]; simpl;
      intros [= <- <-];
      [eapply step_login; [done..|quiet_effects]
      | constructor; quiet_effects]. }
  destruct (String.eqb_spec (Typ evt) "nether") as [Hty|_].
  { destruct (String.eqb_spec (State s) "overworld") as [Hst|_]; simpl;
      intros [= <- <-]; [|constructor; quiet_effects].
    rewrite <- Hty. eapply (step_advance _ _ _ a "overworld"); try done;
      try (rewrite Hty; by apply (bool_decide_unpack _)); quiet_effects. }
  destruct (String.eqb_spec (Typ evt) "end") as [Hty|_].
  { destruct (String.eqb_spec (State s) "nether") as [Hst|_]; simpl;
      intros [= <- <-]; [|constructor; quiet_effects].
    rewrite <- Hty. eapply (step_advance _ _ _ a "nether"); try done;
      try (rewrite Hty; by apply (bool_decide_unpack _)); quiet_effects. }
  destruct (String.eqb_spec (Typ evt) "credits") as [Hty|_].
  { destruct (String.eqb_spec (State s) "end") as [Hst|_]; simpl;
      intros [= <- <-]; [|constructor; quiet_effects].
    rewrite <- Hty. eapply (step_advance _ _ _ a "end"); try done;
      try (rewrite Hty; by apply (bool_decide_unpack _)); quiet_effects. }
  intros [= <- <-]. constructor. quiet_effects.
Qed.

Lemma quiet_no_effects eff :
  Forall quiet eff →
  proxy_sends eff = [] ∧ file_writes eff = [] ∧ kills eff = [].
Proof.
  induction 1 as [|e eff He _ (IH1 & IH2 & IH3)]; [done|].
  unfold proxy_sends, file_writes, kills in *.
  destruct e; simpl in *; rewrite ?IH1, ?IH2, ?IH3; done.
Qed.

Lemma select_active_cases ord s :
  (is_Some (Active s) ∧ select_active ord s = (s, [])) ∨
  (Active s = None ∧ first_ready ord (Replicas s) = None ∧
   select_active ord s = (s, [ProxyAddrSend ""])) ∨
  (Active s = None ∧
   ∃ k g, first_ready ord (Replicas s) = Some (k, g) ∧
          Replicas s !! k = Some g ∧ Ready g = true ∧
          select_active ord s =
            (with_Active (Some k) s,
             [ProxyAddrSend "";
              LogPrintf "[core] switching to %s" [VString (Name g)];
              ProxyAddrSend (Addr g)])).
Proof.
  unfold select_active. destruct (Active s) as [a|]; [left; eauto|].
  destruct (first_ready ord (Replicas s)) as [[k g]|] eqn:Hf.
  - right. right. split; [done|]. exists k, g.
    by destruct (first_ready_Some _ _ _ _ Hf) as (? & ? & _).
  - right. left. done.
Qed.

Lemma event_step_count s evt inspect s' eff :
  event_step s evt inspect s' eff → replica_count s' = replica_count s.
Proof.
  unfold replica_count.
  destruct 1; simpl; try done; f_equal; by eapply map_size_insert_Some.
Qed.

Lemma event_step_inv image s evt inspect s' eff :
  Session_inv image s → Session_wf s' → event_step s evt inspect s' eff →
  Session_inv image s'.
Proof.
  intros (_ & Hnames & Hphase & Hact) Hwf' Hstep.
  split; [done|]. destruct Hstep as [eff _|a g Hty Ha Hg Hid|g eff Hty Hg _|
    a eff Hty Hst Ha _|a req eff Hty Hadv Hst Ha _]; simpl.
  - done.
  - split_and!; [|by apply (bool_decide_unpack _)|done].
    intros k g'. destruct (decide (a = k)) as [<-|Hne].
    + rewrite lookup_insert_eq. intros [= <-]. simpl. eauto.
    + rewrite lookup_insert_ne by done. eauto.
  - split_and!; [|done..].
    intros k g'. destruct (decide (GameID evt = k)) as [<-|Hne].
    + rewrite lookup_insert_eq. intros [= <-].
      destruct (Hnames _ _ Hg) as [Hn Hi]. by destruct inspect.
    + rewrite lookup_insert_ne by done. eauto.
  - split_and!; [done|by apply (bool_decide_unpack _)|].
    intros _. rewrite Ha. eauto.
  - split_and!; [done| |intros _; rewrite Ha; eauto].
    revert Hty. unfold phases. rewrite !elem_of_cons.
    intros [->|[->|[->|[]%elem_of_nil]]]; by apply (bool_decide_unpack _).
Qed.

Lemma select_active_inv image ord s :
  Session_inv image s → Session_inv image (select_active ord s).1.
Proof.
  intros (Hwf & Hnames & Hphase & Hact).
  split; [by apply select_active_wf|].
  destruct (select_active_cases ord s)
    as [[_ ->]|[(_ & _ & ->)|(_ & k & g & _ & _ & _ & ->)]]; simpl; done.
Qed.

Lemma select_active_count ord s :
  replica_count (select_active ord s).1 = replica_count s.
Proof.
  destruct (select_active_cases ord s)
    as [[_ ->]|[(_ & _ & ->)|(_ & k & g & _ & _ & _ & ->)]]; done.
Qed.

Lemma Loop_iter_final it s s' :
  final_session (Loop_iter json_Marshal Sub_String it s).1 = Some s' →
  s' = (select_active (order it) s).1 ∨
  ∃ evt inspect eff,
    wake it = Recv evt inspect ∧
    handle_event json_Marshal Sub_String (select_active (order it) s).1
                 evt inspect = Ok (s', eff).
Proof.
  unfold Loop_iter.
  destruct (select_active (order it) s) as [s1 eff1]. simpl.
  destruct (wake it) as [saved|evt inspect]; simpl.
  - intros [= <-]. by left.
  - destruct (handle_event _ _ s1 evt inspect) as [[s2 eff2]|] eqn:Hh;
      [|done].
    simpl. intros [= <-]. right. eauto.
Qed.

Lemma Loop_iter_inv image it s s' :
  Session_inv image s →
  final_session (Loop_iter json_Marshal Sub_String it s).1 = Some s' →
  Session_inv image s' ∧ replica_count s' = replica_count s.
Proof.
  intros Hinv [->|(evt & inspect & eff & _ & Hh)]%Loop_iter_final.
  - split; [by apply select_active_inv | apply select_active_count].
  - pose proof (select_active_inv image (order it) s Hinv) as Hinv1.
    pose proof (handle_event_step _ _ _ _ _ Hh) as Hstep.
    split.
    + eapply event_step_inv; [done| |done].
      eapply handle_event_wf; [|done]. by destruct Hinv1.
    + rewrite (event_step_count _ _ _ _ _ Hstep). apply select_active_count.
Qed.

Lemma Loop_cons it rest s :
  Loop json_Marshal Sub_String (it :: rest) s =
    match Loop_iter json_Marshal Sub_String it s with
    | (Continue s', eff) =>
        let '(n, eff') := Loop json_Marshal Sub_String rest s' in
        (n, eff ++ eff')
    | stop => stop
    end.
Proof. reflexivity. Qed.

Lemma Loop_final_inv image its s n eff s' :
  Session_inv image s →
  Loop json_Marshal Sub_String its s = (n, eff) →
  final_session n = Some s' →
  Session_inv image s' ∧ replica_count s' = replica_count s.
Proof.
  revert s n eff. induction its as [|it rest IH]; intros s n eff Hinv.
  - simpl. by intros [= <- <-] [= <-].
  - rewrite Loop_cons.
    destruct (Loop_iter _ _ it s) as [[s1|s1|] eff1] eqn:Hit.
    + destruct (Loop _ _ rest s1) as [n2 eff2] eqn:Hrest.
      intros [= <- <-] Hfin.
      destruct (Loop_iter_inv image it s s1 Hinv) as [Hinv1 Hc1];
        [by rewrite Hit|].
      destruct (IH _ _ _ Hinv1 Hrest Hfin) as [? ?]. split; [done|congruence].
    + intros [= <- <-] [= <-]. apply (Loop_iter_inv image it s); [done|].
      by rewrite Hit.
    + by intros [= <- <-].
Qed.

Lemma NewSession_inv load image replicas s :
  NewSession load image replicas = Some s →
  Session_inv image s ∧
  ∀ k, Replicas s !! k =
         if bool_decide (0 ≤ k < replicas) then Some (new_game image k)
         else None.
Proof.
  intros Hnew.
  destruct (NewSession_wf _ _ _ _ Hnew) as (Hwf & _ & Ha & Hs & _).
  assert (∃ d, s = foldl NewGame
            {| Data := d; Replicas := ∅; SImage := image; Active := None;
               State := ""; TimeStart := Time_zero |} (seqZ 0 replicas))
    as [d ->].
  { destruct load; simpl in Hnew; [injection Hnew as <- ..| |done]; eauto.
    injection Hnew as <-. eauto. }
  assert (∀ k, Replicas (foldl NewGame
            {| Data := d; Replicas := ∅; SImage := image; Active := None;
               State := ""; TimeStart := Time_zero |} (seqZ 0 replicas)) !! k =
         if bool_decide (0 ≤ k < replicas) then Some (new_game image k)
         else None) as Hlookup.
  { intros k. rewrite foldl_NewGame_lookup. simpl.
    destruct (decide (k ∈ seqZ 0 replicas)) as [Hin|Hin];
      rewrite elem_of_seqZ in Hin.
    - rewrite bool_decide_eq_true_2 by lia. done.
    - rewrite bool_decide_eq_false_2 by lia. apply lookup_empty. }
  split; [|done]. split_and!; try done.
  - intros k g. rewrite Hlookup. case_bool_decide; [|done].
    by intros [= <-].
  - rewrite Hs. by apply (bool_decide_unpack _).
Qed.

Lemma int_wrap_range z : int_min ≤ int_wrap z ≤ int_max.
Proof.
  unfold int_wrap, int_min, int_max.
  pose proof (Z.mod_pos_bound (z + 2 ^ 63) (2 ^ 64)). lia.
Qed.

Lemma int_wrap_add x y : int_wrap (int_wrap x + y) = int_wrap (x + y).
Proof.
  unfold int_wrap. f_equal.
  replace ((x + 2 ^ 63) mod 2 ^ 64 - 2 ^ 63 + y + 2 ^ 63)
    with ((x + 2 ^ 63) mod 2 ^ 64 + y) by lia.
  rewrite Z.add_mod_idemp_l by lia. f_equal. lia.
Qed.

Lemma event_step_effects s evt inspect s' eff :
  event_step s evt inspect s' eff →
  proxy_sends eff = [] ∧ file_writes eff = [] ∧
  (kills eff = [] ∧ Data s' = Data s ∨
   Typ evt = "cmd.reset" ∧ length (kills eff) = 1%nat ∧
   Attempt (Data s') = int_wrap (Attempt (Data s) + 1)).
Proof.
  destruct 1 as [eff Hq|a g Hty Ha Hg Hid|g eff Hty Hg Hq|
    a eff Hty Hst Ha Hq|a req eff Hty Hadv Hst Ha Hq];
    try (destruct (quiet_no_effects _ Hq) as (-> & -> & ->); by eauto).
  split_and!; try done. by right.
Qed.

Lemma handle_event_Ok s evt inspect :
  Session_wf s → 0 ≤ GameID evt →
  ∃ r, handle_event json_Marshal Sub_String s evt inspect = Ok r.
Proof.
  intros Hwf Hid. unfold handle_event.
  destruct (unknown_game s evt) eqn:Hu; [eauto|].
  destruct (non_active s evt) eqn:Hn; [eauto|].
  destruct (String.eqb_spec (Typ evt) "generated") as [Hgen|Hgen].
  - unfold dispatch. rewrite Hgen. simpl.
    destruct Hwf as (Hdom & _).
    destruct (Hdom (GameID evt)) as [_ [g Hg]].
    { apply Z.leb_gt in Hu. unfold replica_count. lia. }
    rewrite Hg. simpl. eauto.
  - destruct (validated_active s evt (conj Hu Hn) Hgen)
      as (a & g & Ha & Hg & _).
    unfold dispatch. apply String.eqb_neq in Hgen. rewrite Hgen.
    repeat match goal with
    | |- context [deref_Active s ?k] =>
        rewrite (deref_Active_Some s a g k Ha Hg)
    end.
    unfold Reset.
    repeat match goal with
    | |- context [if ?b then _ else _] => destruct b
    end; simpl; eauto.
Qed.

(** ** Properties of the running session *)

(** [NewSession] fails only when the state file cannot be loaded.
    Otherwise it yields an idle session without active replica whose
    attempt counter is the loaded one (0 without a state file), with
    exactly the replicas [0 .. replicas-1], replica [k] being named
    [mcspeedrun_k], running the given image, without address and not
    ready; a count of zero or less gives no replica. *)
Theorem NewSession_result load image replicas :
  (NewSession load image replicas = None ↔ load = LoadError) ∧
  ∀ s, NewSession load image replicas = Some s →
    Data s = match load with Loaded d => d | _ => {| Attempt := 0 |} end ∧
    SImage s = image ∧ Active s = None ∧ State s = "" ∧
    TimeStart s = Time_zero ∧
    replica_count s = Z.max 0 replicas ∧
    ∀ k, Replicas s !! k =
           if bool_decide (0 ≤ k < replicas) then Some (new_game image k)
           else None.
Proof.
  split; [by destruct load|].
  intros s Hnew.
  destruct (NewSession_wf _ _ _ _ Hnew) as (_ & Hcount & _).
  destruct (NewSession_inv _ _ _ _ Hnew) as [_ Hlookup].
  destruct load as [|d|]; simpl in Hnew; [| |done]; injection Hnew as <-;
    match goal with
    | |- context [foldl NewGame ?s0 ?l] =>
        destruct (foldl_NewGame_fields l s0) as (H1 & H2 & H3 & H4 & H5)
    end; split_and!; done.
Qed.

(** However [Loop] runs on a session made by [NewSession], the session
    keeps exactly the replicas [0 .. replicas-1] it was made with, each
    stored under its id with the name and the image it was given. *)
Theorem Loop_keeps_replicas load image replicas its s0 n eff s :
  NewSession load image replicas = Some s0 →
  Loop json_Marshal Sub_String its s0 = (n, eff) →
  final_session n = Some s →
  replica_count s = Z.max 0 replicas ∧
  ∀ k, if bool_decide (0 ≤ k < replicas)
       then ∃ g, Replicas s !! k = Some g ∧ ID g = k ∧
                 Name g = "mcspeedrun_" +:+ itoa k ∧ Image g = image
       else Replicas s !! k = None.
Proof.
  intros Hnew Hrun Hfin.
  destruct (NewSession_wf _ _ _ _ Hnew) as (_ & Hcount & _).
  destruct (NewSession_inv _ _ _ _ Hnew) as [Hinv0 _].
  destruct (Loop_final_inv image its s0 n eff s Hinv0 Hrun Hfin)
    as [((Hdom & Hid & _) & Hnames & _) Hc].
  rewrite Hcount in Hc. split; [done|]. intros k.
  case_bool_decide as Hk.
  - destruct (Hdom k) as [_ [g Hg]]; [lia|].
    exists g. destruct (Hnames _ _ Hg). split_and!; eauto.
  - apply eq_None_not_Some. rewrite Hdom. lia.
Qed.

(** However [Loop] runs on a session made by [NewSession], the phase is
    one of idle, overworld, nether, end and credits, the active replica
    (if any) is a replica of the session that is ready, and outside the
    idle phase there is an active replica. *)
Theorem Loop_phase_has_active load image replicas its s0 n eff s :
  NewSession load image replicas = Some s0 →
  Loop json_Marshal Sub_String its s0 = (n, eff) →
  final_session n = Some s →
  State s ∈ phases ∧
  (∀ a, Active s = Some a →
        ∃ g, Replicas s !! a = Some g ∧ ID g = a ∧ Ready g = true) ∧
  (State s ≠ "" → is_Some (Active s)).
Proof.
  intros Hnew Hrun Hfin.
  destruct (NewSession_inv _ _ _ _ Hnew) as [Hinv0 _].
  destruct (Loop_final_inv image its s0 n eff s Hinv0 Hrun Hfin)
    as [((_ & Hid & Hact) & _ & Hphase & Hsome) _].
  split_and!; try done.
  intros a (g & Hg & Hr)%Hact. exists g. split_and!; eauto.
Qed.

(** In a well-formed session the handling of an event panics in one
    case only: a ["generated"] event with a negative [GameID], which the
    guard [evt.GameID >= len(s.Replicas)] lets through and for which the
    map holds no replica. *)
Theorem handle_event_panics s evt inspect :
  Session_wf s →
  (handle_event json_Marshal Sub_String s evt inspect = Panic ↔
   Typ evt = "generated" ∧ GameID evt < 0).
Proof.
  intros Hwf. split.
  - intros Hp.
    destruct (decide (0 ≤ GameID evt)) as [Hid|Hid].
    { destruct (handle_event_Ok s evt inspect Hwf Hid) as [r Hr].
      congruence. }
    split; [|lia]. revert Hp. unfold handle_event.
    assert (unknown_game s evt = false) as ->.
    { apply Z.leb_gt. lia. }
    destruct (non_active s evt) eqn:Hn; [done|].
    destruct (String.eqb_spec (Typ evt) "generated") as [|Hgen]; [done|].
    destruct (validated_active s evt) as (a & g & Ha & Hg & Hid');
      [split; [apply Z.leb_gt; lia | done] | done |].
    destruct Hwf as (Hdom & Hids & _).
    assert (is_Some (Replicas s !! a)) as Hs by eauto.
    apply Hdom in Hs. rewrite <- (Hids _ _ Hg) in Hs. lia.
  - intros [Hty Hneg]. unfold handle_event.
    assert (unknown_game s evt = false) as ->.
    { apply Z.leb_gt. lia. }
    assert (non_active s evt = false) as ->.
    { unfold non_active. rewrite Hty. apply andb_false_r. }
    unfold dispatch. rewrite Hty. simpl.
    destruct Hwf as (Hdom & _).
    destruct (Replicas s !! GameID evt) as [g|] eqn:Hg; [|done].
    assert (is_Some (Replicas s !! GameID evt)) as Hs by eauto.
    apply Hdom in Hs. lia.
Qed.

(** [Loop] on a session made by [NewSession] never panics as long as
    the events it receives bear no negative replica id: the run ends
    waiting for the next event or returned after cancellation. *)
Theorem Loop_does_not_crash load image replicas its s0 :
  NewSession load image replicas = Some s0 →
  Forall (λ it, ∀ evt, turn_event it = Some evt → 0 ≤ GameID evt) its →
  ∃ s, final_session (Loop json_Marshal Sub_String its s0).1 = Some s.
Proof.
  intros Hnew.
  destruct (NewSession_inv _ _ _ _ Hnew) as [Hinv0 _]. clear Hnew.
  revert s0 Hinv0. induction its as [|it rest IH]; intros s Hinv Hids.
  - by exists s.
  - rewrite Loop_cons.
    destruct (Loop_iter _ _ it s) as [[s1|s1|] eff1] eqn:Hit.
    + destruct (Loop_iter_inv image it s s1 Hinv) as [Hinv1 _];
        [by rewrite Hit|].
      destruct (IH s1 Hinv1) as [s' Hs'].
      { by apply Forall_inv_tail in Hids. }
      exists s'. by destruct (Loop _ _ rest s1).
    + by exists s1.
    + exfalso. revert Hit. unfold Loop_iter.
      pose proof (select_active_inv image (order it) s Hinv) as [Hwf1 _].
      destruct (select_active (order it) s) as [s1 e1]. simpl in Hwf1.
      destruct (wake it) as [saved|evt inspect] eqn:Hw; [done|].
      destruct (handle_event_Ok s1 evt inspect Hwf1) as [[s2 e2] ->];
        [|done].
      apply Forall_inv in Hids. apply Hids. unfold turn_event.
      by rewrite Hw.
Qed.

(** In a well-formed session an event changes at most the record of the
    replica it names: every other replica's record stays as it is, no
    replica is added or removed, and no event changes the id, the name
    or the image of a replica. *)
Theorem handle_event_local s evt inspect s' eff :
  Session_wf s →
  handle_event json_Marshal Sub_String s evt inspect = Ok (s', eff) →
  (∀ k, k ≠ GameID evt → Replicas s' !! k = Replicas s !! k) ∧
  (∀ k, is_Some (Replicas s' !! k) ↔ is_Some (Replicas s !! k)) ∧
  (∀ k g g', Replicas s !! k = Some g → Replicas s' !! k = Some g' →
             ID g' = ID g ∧ Name g' = Name g ∧ Image g' = Image g) ∧
  SImage s' = SImage s.
Proof.
  intros (_ & Hids & _) Hstep%handle_event_step.
  destruct Hstep as [eff _|a g Hty Ha Hg Hid|g eff Hty Hg _|
    a eff Hty Hst Ha _|a req eff Hty Hadv Hst Ha _]; simpl;
    try (split_and!; [done|done| |done]; by intros k g g' -> [= <-]).
  - rewrite <- Hid, (Hids _ _ Hg).
    destruct (insert_same_keys (Replicas s) a g (with_Ready false g) Hg)
      as [_ Hkeys].
    split_and!; try done.
    + intros k Hk. by rewrite lookup_insert_ne.
    + intros k g0 g'. destruct (decide (a = k)) as [<-|Hne].
      * rewrite lookup_insert_eq, Hg. by intros [= <-] [= <-].
      * rewrite lookup_insert_ne by done. by intros -> [= <-].
  - set (g1 := (Refresh (with_Ready true g) inspect).1).
    destruct (insert_same_keys (Replicas s) (GameID evt) g g1 Hg)
      as [_ Hkeys].
    split_and!; try done.
    + intros k Hk. by rewrite lookup_insert_ne.
    + intros k g0 g'. destruct (decide (GameID evt = k)) as [<-|Hne].
      * rewrite lookup_insert_eq, Hg. intros [= <-] [= <-].
        unfold g1. by destruct inspect.
      * rewrite lookup_insert_ne by done. by intros -> [= <-].
Qed.

(** A replica that is active at the head of a turn is still the active
    one after it, unless the turn handles a ["cmd.reset"] event of that
    very replica: then no replica is active and that replica is no
    longer ready. *)
Theorem active_stays it s s' eff a :
  Loop_iter json_Marshal Sub_String it s = (Continue s', eff) →
  Active s = Some a →
  Active s' = Some a ∨
  ∃ evt inspect g,
    wake it = Recv evt inspect ∧ Typ evt = "cmd.reset" ∧
    Replicas s !! a = Some g ∧ ID g = GameID evt ∧
    Active s' = None ∧ Ready <$> Replicas s' !! a = Some false.
Proof.
  intros Hit Ha.
  destruct (Loop_iter_final it s s') as [->|(evt & inspect & eff' & Hw & Hh)];
    [by rewrite Hit| |].
  { left. unfold select_active. by rewrite Ha. }
  assert ((select_active (order it) s).1 = s) as Hsel.
  { unfold select_active. by rewrite Ha. }
  rewrite Hsel in Hh. apply handle_event_step in Hh.
  destruct Hh as [eff2 _|a' g Hty Ha' Hg Hid|g eff2 Hty Hg _|
    a' eff2 Hty Hst Ha' _|a' req eff2 Hty Hadv Hst Ha' _]; simpl;
    try (by left).
  right. rewrite Ha in Ha'. injection Ha' as <-.
  exists evt, inspect, g. split_and!; try done.
  by rewrite lookup_insert_eq.
Qed.

Lemma Loop_iter_effects it s :
  let '(s1, eff1) := select_active (order it) s in
  ∃ eff2,
    (Loop_iter json_Marshal Sub_String it s).2 = eff1 ++ eff2 ∧
    proxy_sends eff2 = [] ∧
    file_writes eff2 =
      match (Loop_iter json_Marshal Sub_String it s).1 with
      | Return s' => [Data s']
      | _ => []
      end ∧
    ∀ s', final_session (Loop_iter json_Marshal Sub_String it s).1 = Some s' →
      int_min ≤ Attempt (Data s) ≤ int_max →
      Attempt (Data s') =
        int_wrap (Attempt (Data s) + Z.of_nat (length (kills eff2))).
Proof.
  unfold Loop_iter.
  pose proof (select_active_cases (order it) s) as Hsel.
  destruct (select_active (order it) s) as [s1 eff1].
  assert (Data s1 = Data s) as Hdata.
  { destruct Hsel as [[_ [= -> _]]|[(_ & _ & [= -> _])|
      (_ & k & g & _ & _ & _ & [= -> _])]]; done. }
  destruct (wake it) as [saved|evt inspect].
  - eexists. split; [done|]. split_and!.
    + by destruct saved.
    + by destruct saved.
    + simpl. intros s' [= <-] Hrange. rewrite Hdata.
      destruct saved; simpl; rewrite Z.add_0_r; by rewrite int_wrap_id.
  - destruct (handle_event _ _ s1 evt inspect) as [[s2 eff2]|] eqn:Hh.
    + exists eff2. split; [done|].
      apply handle_event_step, event_step_effects in Hh
        as (Hp & Hf & [[Hk Hd]|(_ & Hk & Hd)]); split_and!; try done;
        simpl; intros s' [= <-] Hrange.
      * rewrite Hk, Hd, Hdata. simpl. rewrite Z.add_0_r.
        by rewrite int_wrap_id.
      * rewrite Hk, Hd, Hdata. done.
    + eexists. split; [done|]. split_and!; done.
Qed.

Lemma select_active_quiet ord s :
  file_writes (select_active ord s).2 = [] ∧ kills (select_active ord s).2 = [].
Proof.
  destruct (select_active_cases ord s)
    as [[_ ->]|[(_ & _ & ->)|(_ & k & g & _ & _ & _ & ->)]]; done.
Qed.

(** In every turn the proxy is told an address only by the selection at
    its head: nothing when a replica is active, the empty address when
    none is active and none is ready, and the empty address followed by
    the address of the replica promoted otherwise. The handling of the
    event never tells the proxy anything. *)
Theorem proxy_told_on_selection it s :
  proxy_sends (Loop_iter json_Marshal Sub_String it s).2 =
    match Active s with
    | Some _ => []
    | None =>
        match first_ready (order it) (Replicas s) with
        | Some (_, g) => [""; Addr g]
        | None => [""]
        end
    end.
Proof.
  pose proof (Loop_iter_effects it s) as Heff.
  pose proof (select_active_cases (order it) s) as Hsel.
  destruct (select_active (order it) s) as [s1 eff1].
  destruct Heff as (eff2 & -> & Hp & _).
  unfold proxy_sends in *. rewrite omap_app, Hp, app_nil_r.
  destruct Hsel as [[[a ->] [= _ ->]]|[(-> & -> & [= _ ->])|
    (-> & k & g & -> & _ & _ & [= _ ->])]]; done.
Qed.

(** The state file is written exactly when [Loop] returns, once, with
    the session data as they stand then; a run that is still waiting for
    events, or that panicked, has written nothing. *)
Theorem state_saved_on_return its s :
  file_writes (Loop json_Marshal Sub_String its s).2 =
    match (Loop json_Marshal Sub_String its s).1 with
    | Return s' => [Data s']
    | _ => []
    end.
Proof.
  revert s. induction its as [|it rest IH]; intros s; [done|].
  rewrite Loop_cons.
  pose proof (Loop_iter_effects it s) as Heff.
  pose proof (select_active_quiet (order it) s) as [Hq _].
  destruct (select_active (order it) s) as [s1 eff1]. simpl in Hq.
  destruct Heff as (eff2 & He & _ & Hf & _).
  destruct (Loop_iter _ _ it s) as [[s2|s2|] eff] eqn:Hit; simpl in *;
    subst eff; unfold file_writes in *.
  - specialize (IH s2). destruct (Loop _ _ rest s2) as [n2 eff'].
    simpl in *. by rewrite !omap_app, Hq, Hf, IH.
  - by rewrite omap_app, Hq, Hf.
  - by rewrite omap_app, Hq, Hf.
Qed.

(** The attempt counter at the end of a run is the one at its start
    plus, in [int] arithmetic, the number of containers the run killed:
    the counter moves only with a reset, and every reset kills exactly
    one container. *)
Theorem attempt_counts_kills its s n eff s' :
  int_min ≤ Attempt (Data s) ≤ int_max →
  Loop json_Marshal Sub_String its s = (n, eff) →
  final_session n = Some s' →
  Attempt (Data s') =
    int_wrap (Attempt (Data s) + Z.of_nat (length (kills eff))).
Proof.
  revert s n eff. induction its as [|it rest IH]; intros s n eff Hrange.
  - simpl. intros [= <- <-] [= <-]. simpl. rewrite Z.add_0_r.
    by rewrite int_wrap_id.
  - rewrite Loop_cons.
    pose proof (Loop_iter_effects it s) as Heff.
    pose proof (select_active_quiet (order it) s) as [_ Hq].
    destruct (select_active (order it) s) as [s1 eff1]. simpl in Hq.
    destruct Heff as (eff2 & He & _ & _ & Hatt).
    destruct (Loop_iter _ _ it s) as [[s2|s2|] eff0] eqn:Hit; simpl in *;
      subst eff0.
    + destruct (Loop _ _ rest s2) as [n2 eff'] eqn:Hrest.
      intros [= <- <-] Hfin.
      specialize (Hatt s2 eq_refl Hrange).
      rewrite (IH s2 n2 eff'); [|rewrite Hatt; apply int_wrap_range|done..].
      rewrite Hatt, int_wrap_add. f_equal.
      unfold kills in *. rewrite !omap_app, Hq, !length_app. simpl. lia.
    + intros [= <- <-] [= <-]. rewrite (Hatt s2 eq_refl Hrange).
      unfold kills in *. by rewrite omap_app, Hq.
    + by intros [= <- <-].
Qed.

(** The handling of an event writes console commands to, and kills, no
    container but that of the active replica, and only on an event of
    that replica; the other replicas are at most inspected. *)
Theorem only_active_commanded s evt inspect s' eff n :
  handle_event json_Marshal Sub_String s evt inspect = Ok (s', eff) →
  n ∈ commanded eff →
  ∃ a g, Active s = Some a ∧ Replicas s !! a = Some g ∧
         Name g = n ∧ ID g = GameID evt.
Proof.
  unfold handle_event.
  destruct (unknown_game s evt) eqn:Hu;
    [intros [= <- <-]; simpl; by intros ?%elem_of_nil|].
  destruct (non_active s evt) eqn:Hn;
    [intros [= <- <-]; simpl; by intros ?%elem_of_nil|].
  destruct (dispatch _ _ s evt inspect) as [[s2 eff2]|] eqn:Hd; [|done].
  intros [= <- <-]. revert Hd. unfold dispatch.
  destruct (String.eqb_spec (Typ evt) "generated") as [Hgen|Hgen].
  { rewrite Hgen. simpl.
    destruct (Replicas s !! GameID evt) as [g|] eqn:Hg; [|done].
    intros [= <- <-]. simpl. by intros ?%elem_of_nil. }
  destruct (validated_active s evt (conj Hu Hn) Hgen)
    as (a & g & Ha & Hg & Hid).
  repeat match goal with
  | |- context [deref_Active s ?k] => rewrite (deref_Active_Some s a g k Ha Hg)
  end.
  intros Hd Hin. exists a, g. split_and!; try done.
  symmetry. revert n Hin. apply Forall_forall. revert Hd.
  repeat match goal with
  | |- context [String.eqb ?x ?y] => destruct (String.eqb x y)
  end; simpl; intros [= <- <-]; simpl; by repeat constructor.
Qed.

(** An event [HandleLog] produces for a replica of a well-formed session
    passes the check of the game id, is handled without a panic, and
    gives nothing to a coordinate-computation collaborator: the parser
    produces neither of the two event types whose handling calls
    [HandleThrow]. *)
Theorem HandleLog_event_handled s k g now line evt inspect :
  Session_wf s →
  Replicas s !! k = Some g →
  (HandleLog g now line).2 = Some evt →
  unknown_game s evt = false ∧
  ∃ s' eff,
    handle_event json_Marshal Sub_String s evt inspect = Ok (s', eff) ∧
    thrower_inputs eff = [].
Proof.
  intros Hwf Hg Hev.
  apply HandleLog_sound in Hev
    as (ts & thread & h & m & sec & _ & _ & _ & _ & _ & Hm & Hid & _).
  pose proof Hwf as (Hkeys & Hids & _).
  rewrite (Hids _ _ Hg) in Hid.
  assert (0 ≤ GameID evt < replica_count s) as Hrange.
  { rewrite Hid. apply Hkeys. by exists g. }
  split.
  { unfold unknown_game. apply Z.leb_gt. unfold replica_count in Hrange. lia. }
  destruct (handle_event_Ok s evt inspect Hwf) as [[s' eff] Hh]; [lia|].
  exists s', eff. split; [done|].
  apply first_match_types in Hm.
  revert Hh. unfold handle_event.
  destruct (unknown_game s evt); [by intros [= <- <-]|].
  destruct (non_active s evt); [by intros [= <- <-]|].
  destruct (dispatch _ _ s evt inspect) as [[s2 eff2]|] eqn:Hd; [|done].
  intros [= <- <-]. revert Hd. unfold dispatch, deref_Active.
  assert (Typ evt ≠ "cmd.player") as Hp%String.eqb_neq.
  { intros Heq. rewrite Heq in Hm. revert Hm.
    by apply (bool_decide_unpack ("cmd.player" ∉ parser_types)). }
  assert (Typ evt ≠ "cmd.pearl") as Hq%String.eqb_neq.
  { intros Heq. rewrite Heq in Hm. revert Hm.
    by apply (bool_decide_unpack ("cmd.pearl" ∉ parser_types)). }
  rewrite Hp, Hq.
  destruct (Active s) as [a|]; [destruct (Replicas s !! a) as [ga|]|];
  destruct (Replicas s !! GameID evt) as [ge|];
  repeat match goal with
  | |- context [String.eqb ?x ?y] => destruct (String.eqb x y)
  end; simpl; try done; by intros [= <- <-].
Qed.

Lemma select_active_Replicas ord s :
  Replicas (select_active ord s).1 = Replicas s.
Proof.
  destruct (select_active_cases ord s)
    as [[_ ->]|[(_ & _ & ->)|(_ & k & g & _ & _ & _ & ->)]]; done.
Qed.

Lemma event_step_waits a s evt inspect s' eff :
  Session_wf s →
  Ready <$> Replicas s !! a = Some false →
  (Typ evt = "generated" → GameID evt ≠ a) →
  event_step s evt inspect s' eff →
  Ready <$> Replicas s' !! a = Some false.
Proof.
  intros (_ & _ & Hact) Hwait Hgen.
  destruct 1 as [eff _|a' g Hty Ha Hg Hid|g eff Hty Hg _|
    a' eff Hty Hst Ha _|a' req eff Hty Hadv Hst Ha _]; simpl; try done.
  - destruct (Hact a' Ha) as (g' & Hg' & Hr).
    rewrite lookup_insert_ne; [done|]. intros <-.
    rewrite Hg' in Hwait. simpl in Hwait. congruence.
  - rewrite lookup_insert_ne; [done|]. by apply Hgen.
Qed.

(** A replica that is not ready, as after its reset, is never made the
    active one, and stays not ready, as long as no ["generated"] event
    of that replica arrives. *)
Theorem reset_replica_waits its s n eff s' a :
  Session_wf s →
  Ready <$> Replicas s !! a = Some false →
  Forall (λ it, ∀ evt, turn_event it = Some evt →
                       Typ evt = "generated" → GameID evt ≠ a) its →
  Loop json_Marshal Sub_String its s = (n, eff) →
  final_session n = Some s' →
  Ready <$> Replicas s' !! a = Some false ∧ Active s' ≠ Some a.
Proof.
  intros Hwf Hwait Hits Hrun Hfin.
  assert (Session_wf s' ∧ Ready <$> Replicas s' !! a = Some false)
    as [(_ & _ & Hact) Hw'].
  { revert s n eff Hwf Hwait Hrun Hfin.
    induction Hits as [|it rest Hit _ IH]; intros s n eff Hwf Hwait.
    { simpl. by intros [= <- <-] [= <-]. }
    rewrite Loop_cons.
    assert (∀ s1, final_session (Loop_iter json_Marshal Sub_String it s).1
                  = Some s1 →
                  Session_wf s1 ∧ Ready <$> Replicas s1 !! a = Some false)
      as Hstep.
    { intros s1 Hs1.
      pose proof (select_active_wf (order it) s Hwf) as Hwf1.
      pose proof (select_active_Replicas (order it) s) as Hrep.
      destruct (Loop_iter_final it s s1 Hs1)
        as [->|(evt & inspect & eff1 & Hw & Hh)].
      { by rewrite Hrep. }
      split; [by eapply handle_event_wf|].
      apply handle_event_step in Hh.
      eapply event_step_waits; [exact Hwf1|by rewrite Hrep| |exact Hh].
      apply Hit. unfold turn_event. by rewrite Hw. }
    destruct (Loop_iter _ _ it s) as [[s1|s1|] eff1] eqn:Hiter; simpl in Hstep.
    - destruct (Hstep s1 eq_refl) as [Hwf1 Hwait1].
      destruct (Loop _ _ rest s1) as [n2 eff2] eqn:Hrest.
      intros [= <- <-] Hfin. by eapply IH.
    - intros [= <- <-] [= <-]. by apply Hstep.
    - by intros [= <- <-]. }
  split; [done|]. intros Ha.
  destruct (Hact a Ha) as (g & Hg & Hr). rewrite Hg in Hw'. simpl in Hw'.
  congruence.
Qed.

Lemma first_match_retime text :
  first_match rule_table text = Some "cmd.retime" ↔
  Contains text "> rr" = false ∧ Contains text ": Set the time to 0]" = true.
Proof.
  unfold first_match, rule_table. simpl.
  repeat match goal with
  | |- context [Contains text ?p] => destruct (Contains text p)
  end; simpl; split; try done; by intros [? ?].
Qed.

(** C9, amended: [HandleLog] sends a ["cmd.retime"] event exactly for
    the lines in the log envelope whose time of day parses and whose
    message contains [: Set the time to 0]] and not the reset phrase
    [> rr]. The rule stands second: the reset phrase alone goes before
    it, and it goes before the other five, whose phrases the message may
    contain as well. [Loop] has no case for that type: the event leaves
    the whole session as it was, and past the guards the only effect is
    the log line of its reception. *)
Theorem retime_event :
  (∀ g now line evt,
     (HandleLog g now line).2 = Some evt ∧ Typ evt = "cmd.retime" ↔
     ∃ ts thread h m sec,
       line = envelope ts thread (Payload evt) ∧
       clock_shape ts ∧ some_in class_thread thread = true ∧
       some_in class_dot (Payload evt) = true ∧
       Parse_clock ts = Some (h, m, sec) ∧
       Contains (Payload evt) "> rr" = false ∧
       Contains (Payload evt) ": Set the time to 0]" = true ∧
       GameID evt = ID g ∧ Typ evt = "cmd.retime" ∧
       Timestamp evt = Date (Year now) (Month now) (Day now) h m sec
                            (Nanosecond now)) ∧
  (∀ s evt inspect,
     Typ evt = "cmd.retime" →
     ∃ eff, handle_event json_Marshal Sub_String s evt inspect = Ok (s, eff) ∧
            Forall is_log eff ∧
            (validated s evt → eff = [received evt])).
Proof.
  split.
  - intros g now line evt. split.
    + intros [(ts & thread & h & m & sec & Hline & Hts & Hth & Htx & Hp & Hm
               & Hid & Ht)%HandleLog_sound Hty].
      rewrite Hty in Hm. apply first_match_retime in Hm as [Hrr Hset].
      exists ts, thread, h, m, sec. by split_and!.
    + intros (ts & thread & h & m & sec & -> & Hts & Hth & Htx & Hp & Hrr
              & Hset & Hid & Hty & Ht).
      split; [|done].
      rewrite (HandleLog_complete g now ts thread _ h m sec "cmd.retime")
        by (try done; by apply first_match_retime).
      f_equal. destruct evt; simpl in *. by subst.
  - intros s evt inspect. apply retime_ignored.
Qed.

End SessionLoopMore.

(** ** The log monitor *)

Lemma ReadString_None s :
  all_in class_dot s = true → ReadString "010" s = None.
Proof.
  induction s as [|c s IH]; [done|]. simpl.
  intros [Hc Hs]%andb_true_iff. unfold class_dot in Hc.
  apply negb_true_iff in Hc. by rewrite Hc, (IH Hs).
Qed.

Lemma ReadString_line b rest :
  all_in class_dot b = true →
  ReadString "010" (b +:+ nl +:+ rest) = Some (b +:+ nl, rest).
Proof.
  induction b as [|c b IH].
  - intros _. by rewrite !append_nil_l.
  - simpl. intros [Hc Hb]%andb_true_iff. unfold class_dot in Hc.
    apply negb_true_iff in Hc. rewrite !append_cons. simpl.
    by rewrite Hc, (IH Hb).
Qed.

Lemma ReadString_Some s line rest :
  ReadString "010" s = Some (line, rest) →
  ∃ b, all_in class_dot b = true ∧ line = b +:+ nl ∧ s = line +:+ rest.
Proof.
  revert line. induction s as [|c s IH]; intros line; [done|]. simpl.
  destruct (Ascii.eqb_spec c "010") as [->|Hc].
  - intros [= <- <-]. by exists "".
  - destruct (ReadString "010" s) as [[l r]|]; [|done].
    intros [= <- <-]. destruct (IH l eq_refl) as (b & Hb & -> & ->).
    exists (String c b). split_and!; try done. simpl.
    rewrite Hb, andb_true_r. unfold class_dot.
    apply negb_true_iff. by apply Ascii.eqb_neq.
Qed.

Lemma read_lines_fuel f1 f2 s :
  (String.length s ≤ f1)%nat → (String.length s ≤ f2)%nat →
  read_lines f1 s = read_lines f2 s.
Proof.
  revert f2 s. induction f1 as [|f1 IH]; intros f2 s H1 H2.
  { destruct s; [by destruct f2|simpl in H1; lia]. }
  destruct f2 as [|f2].
  { destruct s; [done|simpl in H2; lia]. }
  simpl.
  destruct (ReadString "010" s) as [[line rest]|] eqn:Hr; [|done].
  apply ReadString_Some in Hr as (b & _ & -> & ->).
  rewrite !length_append in H1, H2. simpl in H1, H2.
  f_equal. apply IH; lia.
Qed.

Lemma Monitor_lines_line b rest :
  all_in class_dot b = true →
  Monitor_lines (b +:+ nl +:+ rest) =
    Trim crlf (b +:+ nl) :: Monitor_lines rest.
Proof.
  intros Hb. unfold Monitor_lines.
  rewrite !length_append. change (String.length nl) with 1%nat.
  replace (String.length b + (1 + String.length rest))%nat
    with (S (String.length b + String.length rest)) by lia.
  cbn [read_lines]. rewrite (ReadString_line b rest Hb).
  f_equal. apply read_lines_fuel; lia.
Qed.

Lemma Monitor_lines_partial s :
  all_in class_dot s = true → Monitor_lines s = [].
Proof.
  intros Hs. unfold Monitor_lines. destruct (String.length s); [done|].
  simpl. by rewrite (ReadString_None s Hs).
Qed.

Lemma TrimRight_nonempty cutset s c :
  last_byte s = Some c → in_cutset cutset c = false →
  TrimRight cutset s ≠ "".
Proof.
  destruct s as [|a s]; [done|]. simpl.
  destruct (TrimRight cutset s) eqn:Ht; [|done].
  destruct s as [|a' s'].
  - intros [= ->] ->. done.
  - revert a' Ht. induction s' as [|a'' s' IH]; intros a' Ht Hl Hc.
    + simpl in Ht, Hl. injection Hl as ->. by rewrite Hc in Ht.
    + simpl in Ht.
      destruct (TrimRight cutset s') eqn:Ht'.
      * destruct (in_cutset cutset a'') eqn:Ha''; [|done].
        apply (IH a''); try done. simpl. by rewrite Ht', Ha''.
      * done.
Qed.

Lemma TrimRight_eol cutset s e :
  all_in (in_cutset cutset) e = true →
  TrimRight cutset (s +:+ e) = TrimRight cutset s.
Proof.
  intros He. induction s as [|c s IH].
  - rewrite append_nil_l. induction e as [|a e IHe]; [done|].
    simpl in *. apply andb_true_iff in He as [Ha He].
    by rewrite (IHe He), Ha.
  - rewrite append_cons. simpl. by rewrite IH.
Qed.

Lemma TrimLeft_eol cutset s e :
  all_in (in_cutset cutset) e = true →
  TrimRight cutset (TrimLeft cutset (s +:+ e)) =
    TrimRight cutset (TrimLeft cutset s).
Proof.
  intros He. induction s as [|c s IH].
  - rewrite append_nil_l. simpl.
    induction e as [|a e IHe]; [done|].
    simpl in *. apply andb_true_iff in He as [Ha He]. rewrite Ha. eauto.
  - rewrite append_cons. simpl. destruct (in_cutset cutset c); [done|].
    by rewrite <- append_cons, TrimRight_eol.
Qed.

Lemma Trim_eol cutset s e :
  all_in (in_cutset cutset) e = true →
  Trim cutset (s +:+ e) = Trim cutset s.
Proof. apply TrimLeft_eol. Qed.

Lemma TrimRight_id cutset s :
  (∀ c, last_byte s = Some c → in_cutset cutset c = false) →
  TrimRight cutset s = s.
Proof.
  induction s as [|c s IH]; [done|]. intros Hl. simpl.
  destruct s as [|c' s'].
  - simpl. by rewrite (Hl c eq_refl).
  - rewrite IH by (intros a Ha; by apply Hl). done.
Qed.

Lemma all_in_TrimLeft cls cutset s :
  all_in cls s = true → all_in cls (TrimLeft cutset s) = true.
Proof.
  induction s as [|c s IH]; [done|]. simpl.
  intros [Hc Hs]%andb_true_iff.
  destruct (in_cutset cutset c); [eauto|]. simpl. by rewrite Hc, Hs.
Qed.

Lemma all_in_TrimRight cls cutset s :
  all_in cls s = true → all_in cls (TrimRight cutset s) = true.
Proof.
  induction s as [|c s IH]; [done|]. simpl.
  intros [Hc Hs]%andb_true_iff. specialize (IH Hs).
  destruct (TrimRight cutset s) as [|a r].
  - destruct (in_cutset cutset c); [done|]. simpl. by rewrite Hc.
  - change (cls c && all_in cls (String a r) = true). by rewrite Hc, IH.
Qed.

Lemma head_byte_TrimLeft cutset s c :
  head_byte (TrimLeft cutset s) = Some c → in_cutset cutset c = false.
Proof.
  induction s as [|a s IH]; [done|]. simpl.
  destruct (in_cutset cutset a) eqn:Ha; [done|]. by intros [= <-].
Qed.

Lemma head_byte_TrimRight cutset s c :
  head_byte (TrimRight cutset s) = Some c → head_byte s = Some c.
Proof.
  destruct s as [|a s]; [done|]. simpl.
  destruct (TrimRight cutset s); [|done].
  by destruct (in_cutset cutset a).
Qed.

Lemma last_byte_TrimRight cutset s c :
  last_byte (TrimRight cutset s) = Some c → in_cutset cutset c = false.
Proof.
  induction s as [|a s IH]; [done|]. simpl.
  destruct (TrimRight cutset s) as [|a' r] eqn:Ht.
  - destruct (in_cutset cutset a) eqn:Ha; [done|]. by intros [= <-].
  - intros Hl. by apply IH.
Qed.

Lemma plain_Trim s :
  all_in class_dot s = true → plain (Trim crlf s) = true.
Proof.
  intros Hs. unfold plain, Trim.
  rewrite all_in_TrimRight by by apply all_in_TrimLeft. simpl.
  apply andb_true_iff. split; apply negb_true_iff, bool_decide_eq_false.
  - intros Hh%head_byte_TrimRight%head_byte_TrimLeft. done.
  - intros Hl%last_byte_TrimRight. done.
Qed.

Lemma Trim_plain l : plain l = true → Trim crlf l = l.
Proof.
  unfold plain. intros [[Hd Hh%negb_true_iff%bool_decide_eq_false]%andb_true_iff
    Hl%negb_true_iff%bool_decide_eq_false]%andb_true_iff.
  assert (∀ c, in_cutset crlf c = true → c = "013"%char ∨ c = "010"%char)
    as Hcut.
  { intros c. unfold in_cutset. simpl.
    destruct (Ascii.eqb_spec c "013"), (Ascii.eqb_spec c "010"); auto; done. }
  assert (∀ s c, all_in class_dot s = true → last_byte s = Some c →
                 class_dot c = true) as Hlast.
  { induction s as [|a s IH]; [done|]. intros c [Ha Hs]%andb_true_iff.
    destruct s as [|a' s']; [by intros [= <-]|]. intros Hc. by eapply IH. }
  unfold Trim. assert (TrimLeft crlf l = l) as ->.
  { destruct l as [|c l]; [done|]. simpl in *.
    apply andb_true_iff in Hd as [Hc _].
    destruct (in_cutset crlf c) eqn:Hin; [|done].
    destruct (Hcut c Hin) as [->| ->]; done. }
  apply TrimRight_id. intros c Hc.
  destruct (in_cutset crlf c) eqn:Hin; [|done].
  destruct (Hcut c Hin) as [->| ->]; [done|].
  by apply Hlast in Hc.
Qed.

(** Whatever the stream, the lines [Monitor] hands to [HandleLog] hold
    no newline and neither start nor end with a carriage return. *)
Theorem Monitor_lines_plain s :
  Forall (λ l, plain l = true) (Monitor_lines s).
Proof.
  unfold Monitor_lines. generalize (String.length s) as fuel.
  intros fuel. revert s. induction fuel as [|fuel IH]; intros s; [done|].
  simpl. destruct (ReadString "010" s) as [[line rest]|] eqn:Hr; [|done].
  apply ReadString_Some in Hr as (b & Hb & -> & _).
  constructor; [|apply IH].
  rewrite Trim_eol by done. by apply plain_Trim.
Qed.

(** Lines without newline that neither start nor end with a carriage
    return, written to the log each with a carriage return and a newline
    after it, are handed to [HandleLog] as they were written and in the
    order written; an unfinished line at the end of the stream is
    dropped. *)
Theorem Monitor_reads_lines ls partial :
  Forall (λ l, plain l = true) ls →
  all_in class_dot partial = true →
  Monitor_lines (log_stream ls partial) = ls.
Proof.
  intros Hls Hp. induction Hls as [|l ls Hl _ IH]; simpl.
  - by apply Monitor_lines_partial.
  - pose proof Hl as [[Hd _]%andb_true_iff _]%andb_true_iff.
    assert (all_in class_dot (l +:+ cr) = true) as Hlcr.
    { clear -Hd. induction l as [|c l IHl]; [done|]. rewrite append_cons.
      simpl in *. apply andb_true_iff in Hd as [-> Hd]. eauto. }
    assert (l +:+ crlf +:+ log_stream ls partial =
            (l +:+ cr) +:+ nl +:+ log_stream ls partial) as ->.
    { change crlf with (cr +:+ nl). by rewrite !append_assoc. }
    rewrite (Monitor_lines_line (l +:+ cr) _ Hlcr), IH. f_equal.
    rewrite append_assoc, (Trim_eol crlf l (cr +:+ nl)) by done.
    by apply Trim_plain.
Qed.

(** ** The container supervisor *)

(** [Launch] answers every removal of the container, and every failed
    wait, with one creation of a container of the replica's image under
    the replica's name, whether or not the creations and starts before
    succeeded; it starts exactly the containers whose creation
    succeeded, in order; and once cancelled it does neither. *)
Theorem Launch_restarts g rounds :
  creates (Launch g rounds) =
    replicate (length (live_rounds rounds)) (Image g, Name g) ∧
  starts (Launch g rounds) = omap created (live_rounds rounds).
Proof.
  induction rounds as [|[w c st] rest [IHc IHs]]; [done|].
  unfold creates, starts in *.
  destruct w, c as [id|], st; simpl; split; f_equal; first [exact IHc|exact IHs|done].
Qed.

(** ** The proxy: no accepted connection is forgotten *)

(** A connection accepted before the first error of [Accept] is closed,
    unless the proxy had an address then, the dial to it succeeded and
    the two copies are still running. *)
Theorem accepted_conn_closed pre addr c r rest :
  Forall (λ a, a ≠ AcceptError) pre →
  ConnClose (Client c) ∈ accept_loop (pre ++ AcceptConn addr c r :: rest) ∨
  (addr ≠ "" ∧ dial_ok r = true ∧ copy_returned r = false).
Proof.
  intros Hpre.
  assert (ConnClose (Client c) ∈ serve_conn addr c r ∨
          (addr ≠ "" ∧ dial_ok r = true ∧ copy_returned r = false)) as [Hin|?];
    [|induction Hpre as [|a pre Ha _ IH]|by right].
  - unfold serve_conn, relay_conn.
    destruct (String.eqb_spec addr "") as [->|Hne]; [left; by left|].
    destruct (dial_ok r), (copy_returned r); simpl;
      rewrite ?elem_of_cons; auto 10.
  - left. simpl. apply elem_of_app. by left.
  - destruct IH as [IH|IH]; [left|by right].
    destruct a as [|addr' c' r']; [done|]. simpl.
    apply elem_of_app. by right.
Qed.

(** ** Console input is one line *)

Lemma all_in_append cls a b :
  all_in cls (a +:+ b) = all_in cls a && all_in cls b.
Proof.
  induction a as [|c a IH]; [done|]. rewrite append_cons. simpl.
  by rewrite IH, andb_assoc.
Qed.

Lemma json_byte_no_newline c : all_in class_dot (json_byte c) = true.
Proof. by destruct c as [[] [] [] [] [] [] [] []]. Qed.

Lemma hex_digit_no_newline n : all_in class_dot (hex_digit n) = true.
Proof.
  unfold hex_digit. generalize (Z.to_nat n). intros k.
  do 16 (destruct k as [|k]; [done|]). by destruct k.
Qed.

Lemma class_dot_high c : 0x80 ≤ byte_val c → class_dot c = true.
Proof.
  intros Hc. unfold class_dot. apply negb_true_iff, Ascii.eqb_neq.
  intros ->. vm_compute in Hc. by apply Hc.
Qed.

Lemma utf8_first_range p0 sz lo hi :
  utf8_first p0 = Some (sz, lo, hi) → 0x80 ≤ lo ∧ (2 ≤ sz ≤ 4)%nat.
Proof.
  unfold utf8_first. repeat case_match; intros [= <- <- <-]; lia.
Qed.

Lemma DecodeRuneInString_size s c size :
  DecodeRuneInString s = (c, size) → s ≠ "" → (1 ≤ size ≤ 4)%nat.
Proof.
  unfold DecodeRuneInString. repeat case_match; intros [= <- <-] ?;
    try done; lia.
Qed.

(** The bytes of a rune that [DecodeRuneInString] decodes behind a
    leading byte of 0x80 or more are all 0x80 or more. *)
Lemma DecodeRuneInString_bytes c0 r c size :
  0x80 ≤ byte_val c0 →
  DecodeRuneInString (String c0 r) = (c, size) →
  all_in class_dot (string_take size (String c0 r)) = true.
Proof.
  intros H0. pose proof (class_dot_high c0 H0) as Hd0.
  unfold DecodeRuneInString.
  repeat case_match; intros [= <- <-]; simpl; rewrite ?Hd0; try done;
    repeat match goal with
    | H : utf8_first _ = Some _ |- _ => apply utf8_first_range in H as [? ?]
    | H : _ || _ = false |- _ => apply orb_false_iff in H as [?%Z.ltb_ge _]
    end;
    rewrite ?class_dot_high by lia; done.
Qed.

Lemma length_string_drop n s :
  (String.length (string_drop n s) = String.length s - n)%nat.
Proof.
  revert s. induction n as [|n IH]; intros [|c s]; simpl; auto with lia.
Qed.

(** More fuel than the length of the string changes nothing. *)
Lemma json_escape_fuel f1 f2 s :
  (String.length s ≤ f1)%nat → (String.length s ≤ f2)%nat →
  json_escape f1 s = json_escape f2 s.
Proof.
  revert f2 s. induction f1 as [|f1 IH]; intros f2 s H1 H2.
  { destruct s; [by destruct f2|simpl in H1; lia]. }
  destruct f2 as [|f2]; [destruct s; [done|simpl in H2; lia]|].
  destruct s as [|b r]; [done|]. cbn [json_escape].
  simpl in H1, H2.
  destruct (byte_val b <? 128); [f_equal; apply IH; lia|].
  destruct (DecodeRuneInString (String b r)) as [c size] eqn:Hdec.
  apply DecodeRuneInString_size in Hdec as [? ?]; [|done].
  assert (String.length (string_drop size (String b r)) ≤ String.length r)%nat.
  { rewrite length_string_drop. simpl. lia. }
  repeat case_match; by rewrite (IH f2) by lia.
Qed.

Lemma json_escape_no_newline fuel s :
  all_in class_dot (json_escape fuel s) = true.
Proof.
  revert s. induction fuel as [|fuel IH]; intros s; [done|].
  destruct s as [|b r]; [done|]. cbn [json_escape].
  destruct (Z.ltb_spec (byte_val b) 128) as [|Hb].
  { by rewrite all_in_append, json_byte_no_newline, IH. }
  destruct (DecodeRuneInString (String b r)) as [c size] eqn:Hdec.
  apply DecodeRuneInString_bytes in Hdec; [|done].
  repeat case_match;
    by rewrite !all_in_append, ?hex_digit_no_newline, ?Hdec, !IH.
Qed.

Lemma json_string_no_newline s : all_in class_dot (json_string s) = true.
Proof.
  unfold json_string. by rewrite !all_in_append, json_escape_no_newline.
Qed.

Lemma one_line_Command name command :
  all_in class_dot command = true →
  one_line (ContainerAttach name (command +:+ nl)).
Proof.
  intros Hc. exists command. split; [done|by apply all_in_dot_no_newline].
Qed.

Lemma one_line_Say name text color :
  one_line (ContainerAttach name
    (("/tellraw @a " +:+
      go_json_Marshal [{| Text := text; Color := color |}]) +:+ nl)).
Proof.
  apply one_line_Command. unfold go_json_Marshal.
  change (String.concat "," (map json_Message [{| Text := text; Color := color |}]))
    with (json_Message {| Text := text; Color := color |}).
  unfold json_Message.
  by rewrite !all_in_append, !json_string_no_newline.
Qed.

(** Whatever the text of a message and however a split is rendered,
    what the handling of an event writes to the console of a container
    is one line: a text without newline, followed by one newline. The
    JSON encoding of the message of [Say] escapes every newline, and the
    two commands of the login are constants. *)
Theorem console_input_one_line Sub_String s evt inspect s' eff name input :
  handle_event go_json_Marshal Sub_String s evt inspect = Ok (s', eff) →
  ContainerAttach name input ∈ eff →
  ∃ body, input = body +:+ nl ∧ Contains body nl = false.
Proof.
  intros Hh Hin.
  assert (Forall one_line eff) as Hall;
    [|by apply (proj1 (Forall_forall _ _) Hall _ Hin)].
  clear Hin. revert Hh. unfold handle_event.
  destruct (unknown_game s evt); [intros [= <- <-]; by repeat constructor|].
  destruct (non_active s evt); [intros [= <- <-]; by repeat constructor|].
  destruct (dispatch _ _ s evt inspect) as [[s2 eff2]|] eqn:Hd; [|done].
  intros [= <- <-]. constructor; [done|]. revert Hd.
  unfold dispatch, deref_Active.
  destruct (Active s) as [a|]; [destruct (Replicas s !! a) as [ga|]|];
  destruct (Replicas s !! GameID evt) as [ge|];
  repeat match goal with
  | |- context [String.eqb ?x ?y] => destruct (String.eqb x y)
  end; simpl; try done; intros [= <- <-];
  unfold Say, Command, HandleThrow; simpl;
  repeat (apply Forall_cons_2;
          [first [exact I | apply one_line_Say | by apply one_line_Command]|]);
  apply Forall_nil_2.
Qed.

(** ** The properties above on sample runs *)

(** A player joins replica 0. *)
Lemma HandleLog_event_fields_witness :
  GameID login_line_event = ID (sample_game 0 "" false) ∧
  Typ login_line_event ∈ parser_types ∧
  Typ login_line_event ≠ "cmd.player" ∧ Typ login_line_event ≠ "cmd.pearl" ∧
  (∃ head, login_line = "[" +:+ head +:+ "]: " +:+ Payload login_line_event) ∧
  Payload login_line_event ≠ "" ∧
  Contains (Payload login_line_event) nl = false ∧
  Year (Timestamp login_line_event) = Year (sample_time 0) ∧
  Month (Timestamp login_line_event) = Month (sample_time 0) ∧
  Day (Timestamp login_line_event) = Day (sample_time 0) ∧
  Nanosecond (Timestamp login_line_event) = Nanosecond (sample_time 0) ∧
  0 ≤ Hour (Timestamp login_line_event) < 24 ∧
  0 ≤ Minute (Timestamp login_line_event) < 60 ∧
  0 ≤ Second (Timestamp login_line_event) < 60.
Proof.
  apply (HandleLog_event_fields (sample_game 0 "" false) (sample_time 0)
           login_line login_line_event).
  vm_compute. reflexivity.
Defined.

(** The scenario of one replica, from [NewSession] to the reset. *)
Lemma Loop_keeps_replicas_witness :
  replica_count scenario_end = Z.max 0 1 ∧
  ∀ k, if bool_decide (0 ≤ k < 1)
       then ∃ g, Replicas scenario_end !! k = Some g ∧ ID g = k ∧
                 Name g = "mcspeedrun_" +:+ itoa k ∧ Image g = "img"
       else Replicas scenario_end !! k = None.
Proof.
  apply (Loop_keeps_replicas go_json_Marshal go_Sub_String NotExist "img" 1
           scenario_turns scenario_start (Continue scenario_end)
           (go_Loop scenario_turns scenario_start).2).
  - vm_compute. reflexivity.
  - vm_compute. reflexivity.
  - reflexivity.
Defined.

(** The scenario up to the login. *)
Lemma Loop_phase_has_active_witness :
  State (scenario_state (Some 0) "overworld" (sample_time 34)) ∈ phases ∧
  (∀ a, Active (scenario_state (Some 0) "overworld" (sample_time 34)) = Some a →
        ∃ g, Replicas (scenario_state (Some 0) "overworld" (sample_time 34))
               !! a = Some g ∧ ID g = a ∧ Ready g = true) ∧
  (State (scenario_state (Some 0) "overworld" (sample_time 34)) ≠ "" →
   is_Some (Active (scenario_state (Some 0) "overworld" (sample_time 34)))).
Proof.
  apply (Loop_phase_has_active go_json_Marshal go_Sub_String NotExist "img" 1
           (take 2 scenario_turns) scenario_start
           (Continue (scenario_state (Some 0) "overworld" (sample_time 34)))
           (go_Loop (take 2 scenario_turns) scenario_start).2).
  - vm_compute. reflexivity.
  - vm_compute. reflexivity.
  - reflexivity.
Defined.

(** A report that bears the id -1. *)
Lemma handle_event_panics_witness :
  go_handle_event (sample_session 3 "") (sample_event "generated" (-1) 40) None
    = Panic ↔
  Typ (sample_event "generated" (-1) 40) = "generated" ∧
  GameID (sample_event "generated" (-1) 40) < 0.
Proof.
  apply (handle_event_panics go_json_Marshal go_Sub_String
           (sample_session 3 "") (sample_event "generated" (-1) 40) None).
  apply Session_wfb_spec. vm_compute. reflexivity.
Defined.

(** The scenario of one replica does not panic. *)
Lemma Loop_does_not_crash_witness :
  ∃ s, final_session (go_Loop scenario_turns scenario_start).1 = Some s.
Proof.
  apply (Loop_does_not_crash go_json_Marshal go_Sub_String NotExist "img" 1
           scenario_turns scenario_start).
  - vm_compute. reflexivity.
  - repeat constructor; intros evt [= <-]; vm_compute; discriminate.
Defined.

(** Replica 1 reports while replica 0 is active. *)
Lemma handle_event_local_witness :
  (∀ k, k ≠ GameID (sample_event "generated" 1 40) →
        Replicas (sample_reported_session 3 "") !! k
        = Replicas (sample_session 3 "") !! k) ∧
  (∀ k, is_Some (Replicas (sample_reported_session 3 "") !! k) ↔
        is_Some (Replicas (sample_session 3 "") !! k)) ∧
  (∀ k g g', Replicas (sample_session 3 "") !! k = Some g →
             Replicas (sample_reported_session 3 "") !! k = Some g' →
             ID g' = ID g ∧ Name g' = Name g ∧ Image g' = Image g) ∧
  SImage (sample_reported_session 3 "") = SImage (sample_session 3 "").
Proof.
  apply (handle_event_local go_json_Marshal go_Sub_String
           (sample_session 3 "") (sample_event "generated" 1 40)
           (Some "172.17.0.3") (sample_reported_session 3 "")
           [received (sample_event "generated" 1 40);
            ContainerInspect "mcspeedrun_1";
            LogPrintf "[core] server %d is online" [VInt 1]]).
  - apply Session_wfb_spec. vm_compute. reflexivity.
  - vm_compute. reflexivity.
Defined.

(** The active replica 0 is reset in the nether. *)
Lemma active_stays_witness :
  Active (sample_reset_session 4) = Some 0 ∨
  ∃ evt inspect g,
    wake (sample_turn [0; 1] "cmd.reset" 0 40) = Recv evt inspect ∧
    Typ evt = "cmd.reset" ∧
    Replicas (sample_session 3 "nether") !! 0 = Some g ∧
    ID g = GameID evt ∧
    Active (sample_reset_session 4) = None ∧
    Ready <$> Replicas (sample_reset_session 4) !! 0 = Some false.
Proof.
  apply (active_stays go_json_Marshal go_Sub_String
           (sample_turn [0; 1] "cmd.reset" 0 40) (sample_session 3 "nether")
           (sample_reset_session 4)
           [received (sample_event "cmd.reset" 0 40);
            ContainerKill "mcspeedrun_0" "KILL"] 0).
  - vm_compute. reflexivity.
  - reflexivity.
Defined.

(** The scenario of one replica ends with one kill and attempt 1. *)
Lemma attempt_counts_kills_witness :
  Attempt (Data scenario_end) =
    int_wrap (Attempt (Data scenario_start) +
              Z.of_nat (length (kills (go_Loop scenario_turns
                                               scenario_start).2))).
Proof.
  apply (attempt_counts_kills go_json_Marshal go_Sub_String scenario_turns
           scenario_start (Continue scenario_end)
           (go_Loop scenario_turns scenario_start).2 scenario_end).
  - vm_compute. split; discriminate.
  - vm_compute. reflexivity.
  - reflexivity.
Defined.

(** The login of the active replica 0 writes to its console. *)
Lemma only_active_commanded_witness :
  ∃ a g, Active (sample_session 3 "") = Some a ∧
         Replicas (sample_session 3 "") !! a = Some g ∧
         Name g = "mcspeedrun_0" ∧
         ID g = GameID (sample_event "login" 0 40).
Proof.
  apply (only_active_commanded go_json_Marshal go_Sub_String
           (sample_session 3 "") (sample_event "login" 0 40) None
           (sample_login_session 3) sample_login_effects "mcspeedrun_0").
  - vm_compute. reflexivity.
  - by apply (bool_decide_unpack _).
Defined.

(** The login line of replica 0, handled by the session that holds it. *)
Lemma HandleLog_event_handled_witness :
  unknown_game (sample_session 3 "") login_line_event = false ∧
  ∃ s' eff,
    go_handle_event (sample_session 3 "") login_line_event None
      = Ok (s', eff) ∧
    thrower_inputs eff = [].
Proof.
  apply (HandleLog_event_handled go_json_Marshal go_Sub_String
           (sample_session 3 "") 0 (sample_game 0 "172.17.0.2" true)
           (sample_time 0) login_line login_line_event None).
  - apply Session_wfb_spec. vm_compute. reflexivity.
  - vm_compute. reflexivity.
  - vm_compute. reflexivity.
Defined.

(** Two lines and an empty one, then the beginning of a fourth. *)
Lemma Monitor_reads_lines_witness :
  Monitor_lines (log_stream [login_line; ""; retime_line] "[12:3") =
    [login_line; ""; retime_line].
Proof.
  apply (Monitor_reads_lines [login_line; ""; retime_line] "[12:3").
  - by repeat constructor.
  - reflexivity.
Defined.

(** A connection whose dial fails, after a relayed one and before the
    listener is closed. *)
Lemma accepted_conn_closed_witness :
  ConnClose (Client (sample_conn 2)) ∈
    accept_loop ([AcceptConn "172.17.0.2" (sample_conn 1) sample_relay] ++
                 AcceptConn "172.17.0.2" (sample_conn 2) sample_failed_relay ::
                 [AcceptError]) ∨
  ("172.17.0.2" ≠ "" ∧ dial_ok sample_failed_relay = true ∧
   copy_returned sample_failed_relay = false).
Proof.
  apply (accepted_conn_closed
           [AcceptConn "172.17.0.2" (sample_conn 1) sample_relay]
           "172.17.0.2" (sample_conn 2) sample_failed_relay [AcceptError]).
  by repeat constructor.
Defined.

(** The time command of the login. *)
Lemma console_input_one_line_witness :
  ∃ body, "/time set 0" +:+ nl = body +:+ nl ∧ Contains body nl = false.
Proof.
  apply (console_input_one_line go_Sub_String (sample_session 3 "")
           (sample_event "login" 0 40) None (sample_login_session 3)
           sample_login_effects "mcspeedrun_0" ("/time set 0" +:+ nl)).
  - vm_compute. reflexivity.
  - do 2 apply list_elem_of_further. apply list_elem_of_here.
Defined.

(** After the reset of replica 0, replica 1 reports and is logged into. *)
Lemma reset_replica_waits_witness :
  Ready <$> Replicas sample_second_session !! 0 = Some false ∧
  Active sample_second_session ≠ Some 0.
Proof.
  apply (reset_replica_waits go_json_Marshal go_Sub_String
           [sample_turn [0; 1] "generated" 1 41;
            sample_turn [0; 1] "login" 1 42]
           (sample_reset_session 4)
           (Continue sample_second_session)
           (go_Loop [sample_turn [0; 1] "generated" 1 41;
                     sample_turn [0; 1] "login" 1 42]
                    (sample_reset_session 4)).2
           sample_second_session 0).
  - apply Session_wfb_spec. vm_compute. reflexivity.
  - reflexivity.
  - repeat constructor; intros evt [= <-]; vm_compute; discriminate.
  - vm_compute. reflexivity.
  - reflexivity.
Defined.

(** C9 as worded does not hold: the message [[Steve: Set the time to 0]]
    contains the phrase, yet the line that bears it after the time of day
    [12:34:66] yields no event, [time.Parse] rejecting the second 66; and
    a message that holds the reset phrase before it yields a
    ["cmd.reset"] event. *)
Lemma retime_phrase_not_enough :
  Contains "[Steve: Set the time to 0]" ": Set the time to 0]" = true ∧
  (HandleLog (sample_game 0 "" false) (sample_time 0)
     "[12:34:66] [Server thread/INFO]: [Steve: Set the time to 0]").2 = None ∧
  Contains "<Steve> rr [Steve: Set the time to 0]" ": Set the time to 0]"
    = true ∧
  Typ <$> (HandleLog (sample_game 0 "" false) (sample_time 0)
             "[12:34:56] [Server thread/INFO]: <Steve> rr [Steve: Set the time to 0]").2
    = Some "cmd.reset".
Proof. vm_compute. done. Qed.

(** The line that reports [/time set 0], and its event in the overworld
    phase. *)
Lemma retime_event_witness :
  ((HandleLog (sample_game 0 "" false) (sample_time 0) retime_line).2 =
     Some {| GameID := 0; Timestamp := Date 2020 12 25 12 34 56 789;
             Typ := "cmd.retime"; Payload := "[Steve: Set the time to 0]" |} ∧
   Typ {| GameID := 0; Timestamp := Date 2020 12 25 12 34 56 789;
          Typ := "cmd.retime"; Payload := "[Steve: Set the time to 0]" |}
     = "cmd.retime") ∧
  ∃ eff,
    go_handle_event (sample_session 3 "overworld")
                    (sample_event "cmd.retime" 0 40) None
      = Ok (sample_session 3 "overworld", eff) ∧
    Forall is_log eff ∧
    (validated (sample_session 3 "overworld") (sample_event "cmd.retime" 0 40)
     → eff = [received (sample_event "cmd.retime" 0 40)]).
Proof.
  split.
  - apply (proj2 (proj1 (retime_event go_json_Marshal go_Sub_String)
                    (sample_game 0 "" false) (sample_time 0) retime_line
                    {| GameID := 0; Timestamp := Date 2020 12 25 12 34 56 789;
                       Typ := "cmd.retime";
                       Payload := "[Steve: Set the time to 0]" |})).
    exists "12:34:56", "Server thread/INFO", 12, 34, 56.
    split_and!; try reflexivity.
    by exists "12", "34", "56".
  - apply (proj2 (retime_event go_json_Marshal go_Sub_String)). reflexivity.
Defined.

(** [encoding/json] on strings that are not plain ASCII: a newline, the
    line separator U+2028, an invalid byte, the micro sign, the
    replacement character itself, and a surrogate half. *)
Example json_string_samples :
  map json_string
    ["a<b"; nl; String "226" (String "128" (String "168" ""));
     String "255" "x"; String "194" (String "181" "s");
     String "239" (String "191" (String "189" ""));
     String "237" (String "160" (String "128" ""))] =
    [dq +:+ "a\u003cb" +:+ dq; dq +:+ "\n" +:+ dq; dq +:+ "\u2028" +:+ dq;
     dq +:+ "\ufffdx" +:+ dq; dq +:+ String "194" (String "181" "s") +:+ dq;
     dq +:+ String "239" (String "191" (String "189" "")) +:+ dq;
     dq +:+ "\ufffd\ufffd\ufffd" +:+ dq].
Proof. vm_compute. reflexivity. Qed.
